(** * EmcEspNow: peer directory and snapshot synchronisation over ESP-NOW

    A shallow embedding of [EmcEspNow.h] / [EmcEspNow.cpp].  The class
    members become a record, the ESP-NOW driver's peer table and the
    datagrams handed to [esp_now_send] become explicit components of a
    [world], and every member function becomes a function on worlds. *)

From Stdlib Require Import ZArith Lia ZifyNat.
From Stdlib.Strings Require Import Byte String.
From stdpp Require Import base list.

Local Open Scope nat_scope.

(** [lia] with division and remainder by constants. *)
Ltac div_lia := zify; Z.to_euclidean_division_equations; lia.

(** ** Bytes and the libc primitives used on the buffers *)

Abbreviation byte := Byte.byte.

#[global] Instance byte_eq_dec : EqDecision byte := Byte.byte_eq_dec.

Definition byte_val (b : byte) : Z := Z.of_N (Byte.to_N b).

(** [memcmp(a, b, n)]: the difference of the first pair of differing bytes
    among the first [n], [0] when there is none.  Both objects are at least
    [n] bytes long at every call site of the source; the last case of the
    match is never reached on such arguments. *)
Fixpoint memcmp (a b : list byte) (n : nat) {struct n} : Z :=
  match n with
  | O => 0%Z
  | S n' =>
      match a, b with
      | x :: a', y :: b' =>
          if decide (x = y) then memcmp a' b' n' else (byte_val x - byte_val y)%Z
      | _, _ => 0%Z
      end
  end.

#[global] Arguments memcmp : simpl never.

(** [memset(&dst, c, n)] *)
Definition memset (dst : list byte) (c : byte) (n : nat) : list byte :=
  replicate n c ++ drop n dst.

(** [memcpy(&dst, src, n)] *)
Definition memcpy (dst src : list byte) (n : nat) : list byte :=
  take n src ++ drop n dst.

(** ** Declared layout of the wire records *)

Module Layout.

Inductive ctype : Type :=
| uint8_t
| int32_t
| float
| array (t : ctype) (n : nat).

Fixpoint sizeof (t : ctype) : nat :=
  match t with
  | uint8_t => 1
  | int32_t => 4
  | float => 4
  | array t n => n * sizeof t
  end.

(** A struct declaration: the fields in declaration order. *)
Definition struct : Type := list (string * ctype).

Record slot : Type := Slot { slot_name : string; slot_offset : nat; slot_size : nat }.

(** [__attribute__((packed))]: every field starts where the previous one
    ends, whatever its alignment. *)
Fixpoint place_packed (off : nat) (fs : struct) : list slot :=
  match fs with
  | [] => []
  | (f, t) :: fs' => Slot f off (sizeof t) :: place_packed (off + sizeof t) fs'
  end.

Definition sizeof_packed (fs : struct) : nat :=
  foldr (fun ft acc => sizeof ft.2 + acc) 0 fs.

(** The slots tile the interval [[off, stop)] in order, without a gap. *)
Fixpoint tiles (off : nat) (ss : list slot) (stop : nat) : Prop :=
  match ss with
  | [] => off = stop
  | s :: ss' => slot_offset s = off /\ tiles (off + slot_size s) ss' stop
  end.

Definition slave_data_t : struct :=
  [ ("button_data"%string, array uint8_t 16);
    ("data"%string, array uint8_t 64) ].

Definition master_cmd_t : struct :=
  [ ("mainId"%string, uint8_t);
    ("subId"%string, uint8_t);
    ("index1"%string, uint8_t);
    ("index2"%string, uint8_t);
    ("value"%string, float);
    ("valueInt"%string, int32_t) ].

Definition peers_t : struct :=
  [ ("peerID"%string, uint8_t);
    ("peer_mac"%string, array uint8_t 6) ].

End Layout.

(** [sizeof(slave_data_t)] and [sizeof(master_cmd_t)] *)
Definition sizeof_slave_data_t : nat := Layout.sizeof_packed Layout.slave_data_t.
Definition sizeof_master_cmd_t : nat := Layout.sizeof_packed Layout.master_cmd_t.

(** ** The ESP-NOW driver, as far as the class relies on it

    The driver belongs to ESP-IDF, not to this library.  Its peer table is
    modelled after the interface of [esp_now.h]: a list of registered
    addresses without repetition, bounded by
    [ESP_NOW_MAX_TOTAL_PEER_NUM]. *)

Inductive esp_err_t : Type :=
| ESP_OK
| ESP_ERR_ESPNOW_NOT_INIT
| ESP_ERR_ESPNOW_INTERNAL
| ESP_ERR_ESPNOW_FULL
| ESP_ERR_ESPNOW_EXIST.

#[global] Instance esp_err_eq_dec : EqDecision esp_err_t.
Proof. solve_decision. Defined.

Inductive esp_now_send_status_t : Type :=
| ESP_NOW_SEND_SUCCESS
| ESP_NOW_SEND_FAIL.

#[global] Instance send_status_eq_dec : EqDecision esp_now_send_status_t.
Proof. solve_decision. Defined.

(** The driver's limit on registered peers ([esp_now.h]). *)
Definition ESP_NOW_MAX_TOTAL_PEER_NUM : nat := 20.

Record esp_now_t : Type := EspNow {
  initialised : bool;
  peer_list : list (list byte)
}.

Definition esp_now_off : esp_now_t := EspNow false [].

(** [esp_now_init()]; whether the radio comes up is decided outside the
    program and is passed in as [res]. *)
Definition esp_now_init (res : esp_err_t) (d : esp_now_t) : esp_now_t :=
  if decide (res = ESP_OK) then EspNow true (peer_list d) else d.

Definition esp_now_is_peer_exist (addr : list byte) (d : esp_now_t) : bool :=
  bool_decide (addr ∈ peer_list d).

Definition esp_now_add_peer (addr : list byte) (d : esp_now_t) : esp_err_t * esp_now_t :=
  if negb (initialised d) then (ESP_ERR_ESPNOW_NOT_INIT, d)
  else if esp_now_is_peer_exist addr d then (ESP_ERR_ESPNOW_EXIST, d)
  else if bool_decide (ESP_NOW_MAX_TOTAL_PEER_NUM <= length (peer_list d))
       then (ESP_ERR_ESPNOW_FULL, d)
       else (ESP_OK, EspNow (initialised d) (peer_list d ++ [addr])).

Fixpoint del_first (addr : list byte) (l : list (list byte)) : list (list byte) :=
  match l with
  | [] => []
  | a :: l' => if decide (a = addr) then l' else a :: del_first addr l'
  end.

Definition esp_now_del_peer (addr : list byte) (d : esp_now_t) : esp_now_t :=
  EspNow (initialised d) (del_first addr (peer_list d)).

(** A call of [esp_now_send], tagged with the member function that made
    it ([sendBroadcast] or [sendUnicast]).  A broadcast is recorded with its
    destination and length only. *)
Inductive datagram : Type :=
| Broadcast (dst : list byte) (len : nat)
| Unicast (dst : list byte) (payload : list byte).

Definition is_unicast (d : datagram) : bool :=
  match d with Unicast _ _ => true | Broadcast _ _ => false end.

(** ** The class [EmcEspNow] *)

Record peers_t : Type := Peer {
  peerID : Z;               (* uint8_t *)
  peer_mac : list byte      (* uint8_t[6] *)
}.

Record EmcEspNow : Type := Node {
  slaveSendData : list byte;       (* slave_data_t *)
  masterRecvData : list byte;      (* slave_data_t *)
  masterCmdData : list byte;       (* master_cmd_t *)
  lastmasterCmdData : list byte;   (* master_cmd_t *)
  peers : list peers_t;            (* std::vector<peers_t> *)
  lastSlaveSendData : list byte;   (* slave_data_t *)
  broadcastMillis : Z;             (* unsigned long *)
  isMaster : bool;
  masterHasCommand : bool
}.

Definition BROADCAST_SLAVE_MESSAGE : string := "EMCFFBV2 Slave!".
Definition BROADCAST_MASTER_MESSAGE : string := "EMCFFBV2 Master!".
Definition BROADCAST_MAC_SLAVE : list byte := [xff; xff; xff; xff; xff; xfd].
Definition BROADCAST_MAC_MASTER : list byte := [xff; xff; xff; xff; xff; xfe].

(** The object as its default member initialisers leave it. *)
Definition fresh : EmcEspNow :=
  Node (replicate sizeof_slave_data_t x00) (replicate sizeof_slave_data_t x00)
       (replicate sizeof_master_cmd_t x00) (replicate sizeof_master_cmd_t x00)
       [] (replicate sizeof_slave_data_t x00) 0 false false.

(** The object, the driver it talks to, and what was handed to
    [esp_now_send] so far (oldest first). *)
Record world : Type := World {
  node : EmcEspNow;
  esp_now : esp_now_t;
  sent : list datagram
}.

Definition power_on : world := World fresh esp_now_off [].

Definition with_node (f : EmcEspNow -> EmcEspNow) (w : world) : world :=
  World (f (node w)) (esp_now w) (sent w).

Definition set_peers (ps : list peers_t) (o : EmcEspNow) : EmcEspNow :=
  Node (slaveSendData o) (masterRecvData o) (masterCmdData o) (lastmasterCmdData o)
       ps (lastSlaveSendData o) (broadcastMillis o) (isMaster o) (masterHasCommand o).

Definition set_masterRecvData (b : list byte) (o : EmcEspNow) : EmcEspNow :=
  Node (slaveSendData o) b (masterCmdData o) (lastmasterCmdData o)
       (peers o) (lastSlaveSendData o) (broadcastMillis o) (isMaster o) (masterHasCommand o).

Definition set_masterCmdData (b : list byte) (o : EmcEspNow) : EmcEspNow :=
  Node (slaveSendData o) (masterRecvData o) b (lastmasterCmdData o)
       (peers o) (lastSlaveSendData o) (broadcastMillis o) (isMaster o) (masterHasCommand o).

Definition set_lastSlaveSendData (b : list byte) (o : EmcEspNow) : EmcEspNow :=
  Node (slaveSendData o) (masterRecvData o) (masterCmdData o) (lastmasterCmdData o)
       (peers o) b (broadcastMillis o) (isMaster o) (masterHasCommand o).

Definition set_broadcastMillis (t : Z) (o : EmcEspNow) : EmcEspNow :=
  Node (slaveSendData o) (masterRecvData o) (masterCmdData o) (lastmasterCmdData o)
       (peers o) (lastSlaveSendData o) t (isMaster o) (masterHasCommand o).

Definition set_isMaster (b : bool) (o : EmcEspNow) : EmcEspNow :=
  Node (slaveSendData o) (masterRecvData o) (masterCmdData o) (lastmasterCmdData o)
       (peers o) (lastSlaveSendData o) (broadcastMillis o) b (masterHasCommand o).

Definition set_masterHasCommand (b : bool) (o : EmcEspNow) : EmcEspNow :=
  Node (slaveSendData o) (masterRecvData o) (masterCmdData o) (lastmasterCmdData o)
       (peers o) (lastSlaveSendData o) (broadcastMillis o) (isMaster o) b.

Definition esp_now_send (d : datagram) (w : world) : world :=
  World (node w) (esp_now w) (sent w ++ [d]).

(** [EmcEspNow::resetData] *)
Definition resetData (w : world) : world :=
  with_node (fun o =>
    Node (memset (slaveSendData o) x00 sizeof_slave_data_t)
         (memset (masterRecvData o) x00 sizeof_slave_data_t)
         (memset (masterCmdData o) x00 sizeof_master_cmd_t)
         (memset (lastmasterCmdData o) x00 sizeof_master_cmd_t)
         (peers o)
         (memset (lastSlaveSendData o) x00 sizeof_slave_data_t)
         (broadcastMillis o) (isMaster o) (masterHasCommand o)) w.

(** [EmcEspNow::addPeer] *)
Definition addPeer (peer_addr : list byte) (w : world) : world :=
  let addr := memcpy (replicate 6 x00) peer_addr 6 in
  if negb (esp_now_is_peer_exist addr (esp_now w)) then
    match esp_now_add_peer addr (esp_now w) with
    | (ESP_OK, d) =>
        let new_peer := Peer (Z.of_nat (length (peers (node w))) mod 256)
                             (memcpy (replicate 6 x00) addr 6) in
        World (set_peers (peers (node w) ++ [new_peer]) (node w)) d (sent w)
    | (_, d) => World (node w) d (sent w)
    end
  else w.

(** The search loop of [removePeer] over the vector: the vector without the
    first entry whose address compares equal, [None] when the loop ends
    without a match. *)
Fixpoint erase_first (peer_mac0 : list byte) (ps : list peers_t) : option (list peers_t) :=
  match ps with
  | [] => None
  | p :: ps' =>
      if bool_decide (memcmp (peer_mac p) peer_mac0 6 = 0%Z) then Some ps'
      else option_map (cons p) (erase_first peer_mac0 ps')
  end.

(** [EmcEspNow::removePeer] *)
Definition removePeer (peer_mac0 : list byte) (w : world) : world :=
  let w1 := resetData w in
  match erase_first peer_mac0 (peers (node w1)) with
  | Some ps => World (set_peers ps (node w1)) (esp_now_del_peer peer_mac0 (esp_now w1)) (sent w1)
  | None => w1
  end.

(** [EmcEspNow::sendBroadcast] *)
Definition sendBroadcast (w : world) : world :=
  if negb (isMaster (node w))
  then esp_now_send (Broadcast BROADCAST_MAC_SLAVE (String.length BROADCAST_SLAVE_MESSAGE)) w
  else esp_now_send (Broadcast BROADCAST_MAC_MASTER (String.length BROADCAST_MASTER_MESSAGE)) w.

(** [EmcEspNow::sendUnicast] *)
Definition sendUnicast (peer_mac0 data : list byte) (len : nat) (w : world) : world :=
  esp_now_send (Unicast peer_mac0 (take len data)) w.

(** [EmcEspNow::begin]; [init] is what [esp_now_init()] returns. *)
Definition begin (isMaster0 : bool) (init : esp_err_t) (w : world) : world :=
  let w1 := World (node w) (esp_now_init init (esp_now w)) (sent w) in
  if negb (bool_decide (init = ESP_OK)) then w1
  else
    let w2 := with_node (set_isMaster isMaster0) w1 in
    let w3 := if negb isMaster0 then addPeer BROADCAST_MAC_SLAVE w2
              else addPeer BROADCAST_MAC_MASTER w2 in
    resetData w3.

(** How a call of [update] can end: it returns, it indexes the vector past
    its end, or its loop is still running when the fuel is used up. *)
Inductive outcome : Type :=
| Done (w : world)
| Fault
| Spin.

(** Subtraction on [unsigned long] (32 bits on the ESP32). *)
Definition ulong_sub (a b : Z) : Z := ((a - b) mod 2 ^ 32)%Z.

(** The master's loop [for (uint8_t i = 1; i < peers.size(); i++)]. *)
Fixpoint update_round (fuel : nat) (i : Z) (w : world) : outcome :=
  match fuel with
  | O => Spin
  | S fuel' =>
      if bool_decide (i < Z.of_nat (length (peers (node w))))%Z then
        match peers (node w) !! Z.to_nat i with
        | Some p =>
            update_round fuel' ((i + 1) mod 256)%Z
              (sendUnicast (peer_mac p) (masterCmdData (node w)) sizeof_master_cmd_t w)
        | None => Fault
        end
      else Done w
  end.

(** [EmcEspNow::update]; [millis k] is what the call of [millis()] number
    [k] made during the call returns, counting from 0: the searching branch
    reads the clock once for the test and once more for the assignment. *)
Definition update (fuel : nat) (millis : nat -> Z) (w : world) : outcome :=
  let o := node w in
  if negb (isMaster o) && bool_decide (length (peers o) = 1) then
    if bool_decide (100 < ulong_sub (millis 0%nat) (broadcastMillis o))%Z
    then Done (sendBroadcast (with_node (set_broadcastMillis (millis 1%nat)) w))
    else Done w
  else if isMaster o then update_round fuel 1 w
  else if masterHasCommand o then Done w
  else if bool_decide (memcmp (slaveSendData o) (lastSlaveSendData o) sizeof_slave_data_t <> 0%Z) then
    match peers o !! 1 with
    | Some p =>
        let w1 := sendUnicast (peer_mac p) (slaveSendData o) sizeof_slave_data_t w in
        Done (with_node (fun o1 =>
                set_lastSlaveSendData
                  (memcpy (lastSlaveSendData o1) (slaveSendData o1) sizeof_slave_data_t) o1) w1)
    | None => Fault
    end
  else Done w.

Record esp_now_recv_info_t : Type := RecvInfo {
  src_addr : list byte;
  des_addr : list byte
}.

(** [EmcEspNow::onReceive] *)
Definition onReceive (recv_info : esp_now_recv_info_t) (data : list byte) (len : Z)
    (w : world) : world :=
  if isMaster (node w) then
    let w1 :=
      if bool_decide (memcmp (des_addr recv_info) BROADCAST_MAC_SLAVE 6 = 0%Z) then
        let w' := sendBroadcast w in
        if negb (esp_now_is_peer_exist (src_addr recv_info) (esp_now w'))
        then addPeer (src_addr recv_info) w' else w'
      else w in
    if bool_decide (len = Z.of_nat sizeof_slave_data_t) then
      if bool_decide (memcmp (masterRecvData (node w1)) data sizeof_slave_data_t <> 0%Z)
      then with_node (fun o =>
             set_masterRecvData (memcpy (masterRecvData o) data sizeof_slave_data_t) o) w1
      else w1
    else w1
  else
    let w1 :=
      if bool_decide (memcmp (des_addr recv_info) BROADCAST_MAC_MASTER 6 = 0%Z) then
        if negb (esp_now_is_peer_exist (src_addr recv_info) (esp_now w))
        then addPeer (src_addr recv_info) w else w
      else w in
    if bool_decide (len = Z.of_nat sizeof_master_cmd_t) then
      let w2 := with_node (set_masterHasCommand true) w1 in
      let w3 :=
        if bool_decide (memcmp (masterCmdData (node w2)) data sizeof_master_cmd_t <> 0%Z)
        then with_node (fun o =>
               set_masterCmdData (memcpy (masterCmdData o) data sizeof_master_cmd_t) o) w2
        else w2 in
      with_node (set_masterHasCommand false) w3
    else w1.

(** [EmcEspNow::onSend] *)
Definition onSend (mac_addr : list byte) (status : esp_now_send_status_t) (w : world) : world :=
  if bool_decide (status = ESP_NOW_SEND_FAIL) then removePeer mac_addr w else w.

(** [EmcEspNow::end] *)
Definition end_ (w : world) : world :=
  let w1 := resetData w in
  let d := foldl (fun d p => esp_now_del_peer (peer_mac p) d) (esp_now w1) (peers (node w1)) in
  World (set_peers [] (node w1)) (EspNow false (peer_list d)) (sent w1).

(** The input scanner of [main.cpp] writes the outgoing snapshot through
    the public member [slaveSendData]. *)
Definition set_slaveSendData (b : list byte) (o : EmcEspNow) : EmcEspNow :=
  Node b (masterRecvData o) (masterCmdData o) (lastmasterCmdData o)
       (peers o) (lastSlaveSendData o) (broadcastMillis o) (isMaster o) (masterHasCommand o).

(** ** Well-formed states *)

(** Every buffer has the size of its struct. *)
Record buffers_ok (o : EmcEspNow) : Prop := BuffersOk {
  ok_slaveSendData : length (slaveSendData o) = sizeof_slave_data_t;
  ok_masterRecvData : length (masterRecvData o) = sizeof_slave_data_t;
  ok_masterCmdData : length (masterCmdData o) = sizeof_master_cmd_t;
  ok_lastmasterCmdData : length (lastmasterCmdData o) = sizeof_master_cmd_t;
  ok_lastSlaveSendData : length (lastSlaveSendData o) = sizeof_slave_data_t
}.

(** The vector mirrors the driver's peer table, entry by entry; addresses
    are six bytes long and the table respects the driver's limit. *)
Record directory_ok (w : world) : Prop := DirectoryOk {
  ok_mirror : peer_mac <$> peers (node w) = peer_list (esp_now w);
  ok_macs : Forall (fun m => length m = 6) (peer_list (esp_now w));
  ok_limit : length (peer_list (esp_now w)) <= ESP_NOW_MAX_TOTAL_PEER_NUM
}.

(** All five buffers hold zero bytes only. *)
Record buffers_zero (o : EmcEspNow) : Prop := BuffersZero {
  zero_slaveSendData : slaveSendData o = replicate sizeof_slave_data_t x00;
  zero_lastSlaveSendData : lastSlaveSendData o = replicate sizeof_slave_data_t x00;
  zero_masterRecvData : masterRecvData o = replicate sizeof_slave_data_t x00;
  zero_masterCmdData : masterCmdData o = replicate sizeof_master_cmd_t x00;
  zero_lastmasterCmdData : lastmasterCmdData o = replicate sizeof_master_cmd_t x00
}.

(** Some entry of the vector compares equal to the address, the test of
    [removePeer]'s loop. *)
Definition has_peer (peer_mac0 : list byte) (ps : list peers_t) : bool :=
  existsb (fun p => bool_decide (memcmp (peer_mac p) peer_mac0 6 = 0%Z)) ps.

(** The directory operations of a session, for running sequences of them. *)
Inductive dir_op : Type :=
| Add (addr : list byte)
| Remove (addr : list byte).

Definition run_op (w : world) (op : dir_op) : world :=
  match op with
  | Add a => addPeer a w
  | Remove a => removePeer a w
  end.

Definition run_ops (ops : list dir_op) (w : world) : world := foldl run_op w ops.

(** The discovery half of [onReceive] on a master, and on a slave. *)
Definition discover_master (recv_info : esp_now_recv_info_t) (w : world) : world :=
  if bool_decide (memcmp (des_addr recv_info) BROADCAST_MAC_SLAVE 6 = 0%Z) then
    let w' := sendBroadcast w in
    if negb (esp_now_is_peer_exist (src_addr recv_info) (esp_now w'))
    then addPeer (src_addr recv_info) w' else w'
  else w.

Definition discover_slave (recv_info : esp_now_recv_info_t) (w : world) : world :=
  if bool_decide (memcmp (des_addr recv_info) BROADCAST_MAC_MASTER 6 = 0%Z) then
    if negb (esp_now_is_peer_exist (src_addr recv_info) (esp_now w))
    then addPeer (src_addr recv_info) w else w
  else w.

(** The worlds a session can be in: the object is constructed, and from
    then on the program calls [begin], [update], [end], [addPeer] and
    [removePeer], the scanner and the application write the two outgoing
    snapshots, and the driver calls back with datagrams received and with
    send reports, always with six-byte addresses. *)
Inductive reachable : world -> Prop :=
| reach_power_on : reachable power_on
| reach_begin (isMaster0 : bool) (init : esp_err_t) (w : world) :
    reachable w -> reachable (begin isMaster0 init w)
| reach_end (w : world) :
    reachable w -> reachable (end_ w)
| reach_update (fuel : nat) (millis : nat -> Z) (w w' : world) :
    reachable w -> update fuel millis w = Done w' -> reachable w'
| reach_scan (b : list byte) (w : world) :
    reachable w -> length b = sizeof_slave_data_t ->
    reachable (with_node (set_slaveSendData b) w)
| reach_command (b : list byte) (w : world) :
    reachable w -> length b = sizeof_master_cmd_t ->
    reachable (with_node (set_masterCmdData b) w)
| reach_addPeer (peer_addr : list byte) (w : world) :
    reachable w -> length peer_addr = 6 -> reachable (addPeer peer_addr w)
| reach_removePeer (peer_mac0 : list byte) (w : world) :
    reachable w -> length peer_mac0 = 6 -> reachable (removePeer peer_mac0 w)
| reach_onReceive (recv_info : esp_now_recv_info_t) (data : list byte) (w : world) :
    reachable w -> length (src_addr recv_info) = 6 ->
    reachable (onReceive recv_info data (Z.of_nat (length data)) w)
| reach_onSend (mac_addr : list byte) (status : esp_now_send_status_t) (w : world) :
    reachable w -> length mac_addr = 6 ->
    reachable (onSend mac_addr status w).

(** What a step from [w] to [w'] handed to [esp_now_send]. *)
Definition emitted (w w' : world) : list datagram := drop (length (sent w)) (sent w').

(** A clock that reads [t] at the first call of [millis()] and one
    millisecond more at each further call. *)
Definition ticking (t : Z) : nat -> Z := fun k => (t + Z.of_nat k)%Z.

(** ** Sample sessions *)

Definition mac_master : list byte := [x24; x6f; x28; x00; x00; x01].
Definition mac_A : list byte := [x24; x6f; x28; xaa; x00; x0a].
Definition mac_B : list byte := [x24; x6f; x28; xbb; x00; x0b].
Definition mac_C : list byte := [x24; x6f; x28; xcc; x00; x0c].

(** A slave after [begin(false)], before any master answered. *)
Definition slave_searching : world := begin false ESP_OK power_on.

(** The same slave once the master's broadcast made it add the master. *)
Definition slave_paired : world := addPeer mac_master slave_searching.

(** A master that has learned the slaves A and B. *)
Definition master_two_slaves : world :=
  run_ops [Add mac_A; Add mac_B] (begin true ESP_OK power_on).

(** A snapshot with the first input bit set. *)
Definition one_button : list byte := x01 :: replicate 79 x00.

(** A command record: mainId 5, subId 1, index1 0, index2 2, then the
    bytes of a float and of an [int32_t]. *)
Definition some_command : list byte :=
  [x05; x01; x00; x02; x00; x00; x60; x40; xff; xff; xff; xff].

(** The paired slave in the middle of a session, with data in each of the
    five buffers: it has sent the snapshot [one_button], and the command
    [some_command] was received and consumed. *)
Definition slave_busy : world :=
  World (Node one_button one_button some_command some_command
              (peers (node slave_paired)) one_button 0 false false)
        (esp_now slave_paired) [Unicast mac_master one_button].

(** The searching slave after the [update] that made its first broadcast,
    with the clock at 999 for the test and at 1000 for the assignment. *)
Definition slave_waiting : world :=
  match update 0 (ticking 999) slave_searching with
  | Done w => w
  | _ => slave_searching
  end.

(** ** The application around the class ([main.cpp]) *)

Definition set_lastmasterCmdData (b : list byte) (o : EmcEspNow) : EmcEspNow :=
  Node (slaveSendData o) (masterRecvData o) (masterCmdData o) b
       (peers o) (lastSlaveSendData o) (broadcastMillis o) (isMaster o) (masterHasCommand o).

(** The command consumer at the end of [loop]: when the live command
    differs from the copy it saw last, it reports the command (the result
    [true]) and remembers it. *)
Definition process_master_data (w : world) : bool * world :=
  if bool_decide (memcmp (masterCmdData (node w)) (lastmasterCmdData (node w))
                    sizeof_master_cmd_t <> 0%Z)
  then (true,
        with_node (fun o =>
          set_lastmasterCmdData
            (memcpy (lastmasterCmdData o) (masterCmdData o) sizeof_master_cmd_t) o) w)
  else (false, w).

(** The pin vectors of [main.cpp]. *)
Record pins_t : Type := Pins {
  buttonsTouchpins : list nat;
  buttonsGndpins : list nat;
  buttonsVCCpins : list nat;
  buttonsColpins : list nat;
  buttonsRowpins : list nat
}.

Definition default_pins : pins_t :=
  Pins [1; 2; 3; 4] [5; 6; 7; 8] [9; 10; 11; 12] [13; 14; 16; 17] [18; 21; 33; 34].

Definition touchThreshold : Z := 8000.
Definition INACTIVITY_TIMEOUT : Z := 30000.

(** The pins of the board, as the Arduino core exposes them, over a state
    [H] of the hardware: [digitalRead] is [true] for HIGH. *)
Record board (H : Type) : Type := Board {
  touchRead : nat -> H -> Z;
  digitalRead : nat -> H -> bool;
  digitalWrite : nat -> bool -> H -> H
}.

Arguments touchRead {H} _ _ _.
Arguments digitalRead {H} _ _ _.
Arguments digitalWrite {H} _ _ _ _.

(** The value of an [uint8_t] after assignment of [z]. *)
Definition byte_of_Z (z : Z) : byte := default x00 (Byte.of_N (Z.to_N (z mod 256))).

(** The Arduino macro [bitWrite(value, bit, bitvalue)]:
    [value |= (1UL << bit)] or [value &= ~(1UL << bit)]. *)
Definition bitWrite (value : byte) (bit : Z) (bitvalue : bool) : byte :=
  byte_of_Z (if bitvalue
             then Z.lor (byte_val value) (Z.shiftl 1 bit)
             else Z.land (byte_val value) (Z.lnot (Z.shiftl 1 bit))).

(** The array [slaveSendData.button_data] and the counter [totalBits]
    ([uint16_t]) while [loop] fills the array. *)
Record scan_t : Type := Scan {
  button_data : list byte;
  totalBits : Z
}.

(** [bitWrite(button_data[byteIndex], bitIndex, state); totalBits++] with
    the two [uint8_t] indices computed from [totalBits]; [None] when
    [byteIndex] is outside the array. *)
Definition store_bit (state : bool) (s : scan_t) : option scan_t :=
  let byteIndex := ((totalBits s / 8) mod 256)%Z in
  let bitIndex := ((totalBits s mod 8) mod 256)%Z in
  match button_data s !! Z.to_nat byteIndex with
  | Some b =>
      Some (Scan (<[Z.to_nat byteIndex := bitWrite b bitIndex state]> (button_data s))
                 ((totalBits s + 1) mod 65536)%Z)
  | None => None
  end.

(** The lambda [writeBits] of [loop]. *)
Fixpoint writeBits {H : Type} (B : board H) (pins : list nat) (invert : bool) (hw : H)
    (s : scan_t) : option scan_t :=
  match pins with
  | [] => Some s
  | pin :: pins' =>
      if bool_decide (16 * 8 <= totalBits s)%Z then Some s
      else
        let state := if invert then negb (digitalRead B pin hw) else digitalRead B pin hw in
        match store_bit state s with
        | Some s' => writeBits B pins' invert hw s'
        | None => None
        end
  end.

(** The loop of [loop] over [buttonsTouchpins]. *)
Fixpoint read_touch {H : Type} (B : board H) (pins : list nat) (hw : H) (s : scan_t)
    : option scan_t :=
  match pins with
  | [] => Some s
  | pin :: pins' =>
      let touched := bool_decide (touchThreshold < touchRead B pin hw)%Z in
      match store_bit touched s with
      | Some s' => read_touch B pins' hw s'
      | None => None
      end
  end.

(** The matrix scan of [loop]: each row is driven LOW while the columns are
    read, and HIGH again afterwards; the scan stops once the array is
    full. *)
Fixpoint scan_matrix {H : Type} (B : board H) (rows cols : list nat) (hw : H) (s : scan_t)
    : option (H * scan_t) :=
  match rows with
  | [] => Some (hw, s)
  | rowPin :: rows' =>
      let hw1 := digitalWrite B rowPin false hw in
      match writeBits B cols true hw1 s with
      | Some s1 =>
          let hw2 := digitalWrite B rowPin true hw1 in
          if bool_decide (16 * 8 <= totalBits s1)%Z then Some (hw2, s1)
          else scan_matrix B rows' cols hw2 s1
      | None => None
      end
  end.

(** The part of [loop] headed "Prepare Button Data", on the slave's
    outgoing snapshot: the [button_data] block is cleared and refilled from
    the pins, the [data] block behind it is not touched. *)
Definition prepare_button_data {H : Type} (B : board H) (cfg : pins_t) (hw : H)
    (snapshot : list byte) : option (H * list byte) :=
  let s0 := Scan (memset (take 16 snapshot) x00 16) 0 in
  match read_touch B (buttonsTouchpins cfg) hw s0 with
  | Some s1 =>
      match writeBits B (buttonsGndpins cfg) true hw s1 with
      | Some s2 =>
          match writeBits B (buttonsVCCpins cfg) false hw s2 with
          | Some s3 =>
              match scan_matrix B (buttonsRowpins cfg) (buttonsColpins cfg) hw s3 with
              | Some (hw', s4) => Some (hw', button_data s4 ++ drop 16 snapshot)
              | None => None
              end
          | None => None
          end
      | None => None
      end
  | None => None
  end.

(** The globals of [main.cpp] that [checkButtonActivity] and the head of
    [loop] use. *)
Record app_t : Type := App {
  lastButtonState : list byte;
  lastActivityMillis : Z;
  lowPowerMode : bool
}.

(** [checkButtonActivity]; [millis] is the reading of the clock. *)
Definition checkButtonActivity (millis : Z) (w : world) (a : app_t) : app_t :=
  let current := take 16 (slaveSendData (node w)) in
  if bool_decide (memcmp (lastButtonState a) current 16 <> 0%Z)
  then App (memcpy (lastButtonState a) current 16) millis false
  else a.

(** The test at the head of [loop] that sends the device to deep sleep. *)
Definition enters_low_power (millis : Z) (a : app_t) : bool :=
  negb (lowPowerMode a) &&
  bool_decide (INACTIVITY_TIMEOUT < ulong_sub millis (lastActivityMillis a))%Z.

(** ** What the scan is expected to store *)

(** Input [i] as the receiver of a snapshot reads it: bit [i mod 8] of byte
    [i / 8]. *)
Definition input_bit (block : list byte) (i : nat) : bool :=
  match block !! (i / 8) with
  | Some b => Z.testbit (byte_val b) (Z.of_nat (i mod 8))
  | None => false
  end.

Definition touch_readings {H : Type} (B : board H) (pins : list nat) (hw : H) : list bool :=
  (fun pin => bool_decide (touchThreshold < touchRead B pin hw)%Z) <$> pins.

Definition pin_readings {H : Type} (B : board H) (pins : list nat) (invert : bool) (hw : H)
    : list bool :=
  (fun pin => if invert then negb (digitalRead B pin hw) else digitalRead B pin hw) <$> pins.

Fixpoint matrix_readings {H : Type} (B : board H) (rows cols : list nat) (hw : H)
    : list bool :=
  match rows with
  | [] => []
  | rowPin :: rows' =>
      let hw1 := digitalWrite B rowPin false hw in
      pin_readings B cols true hw1 ++
      matrix_readings B rows' cols (digitalWrite B rowPin true hw1)
  end.

(** The logical inputs in the order of the scan: touch pins, GND buttons
    (active low), VCC buttons, then the matrix row by row (active low). *)
Definition all_readings {H : Type} (B : board H) (cfg : pins_t) (hw : H) : list bool :=
  touch_readings B (buttonsTouchpins cfg) hw ++
  pin_readings B (buttonsGndpins cfg) true hw ++
  pin_readings B (buttonsVCCpins cfg) false hw ++
  matrix_readings B (buttonsRowpins cfg) (buttonsColpins cfg) hw.

(** The array holds exactly the inputs [rs], in order, and zero bits behind
    them. *)
Record packed (rs : list bool) (s : scan_t) : Prop := Packed {
  packed_count : totalBits s = Z.of_nat (length rs);
  packed_room : length rs <= 128;
  packed_size : length (button_data s) = 16;
  packed_bits : forall i, i < 128 -> input_bit (button_data s) i = default false (rs !! i)
}.

(** A test bench: touch pin 2 is touched, the GND button on pin 5 and the
    VCC button on pin 9 are pressed, and in the matrix the switch between
    row 21 and column 14 is closed.  The state is the row driven LOW. *)
Definition bench : board (option nat) :=
  Board (option nat)
    (fun pin _ => if bool_decide (pin = 2) then 9000%Z else 100%Z)
    (fun pin hw =>
       if bool_decide (pin ∈ [5; 6; 7; 8]) then negb (bool_decide (pin = 5))
       else if bool_decide (pin ∈ [9; 10; 11; 12]) then bool_decide (pin = 9)
       else negb (bool_decide (hw = Some 21 /\ pin = 14)))
    (fun pin level _ => if level then None else Some pin).

(** A snapshot with every input bit set and a recognisable [data] block. *)
Definition busy_snapshot : list byte := replicate 16 xff ++ replicate 64 xab.

(** A pin configuration with 129 touch pins. *)
Definition too_many_touch_pins : pins_t := Pins (replicate 129 1) [] [] [] [].

(** The globals of [main.cpp] at start-up. *)
Definition app_start : app_t := App (replicate 16 x00) 0 false.

(** ** Further notions for the directory *)

(** The broadcast identity a node of the given role registers. *)
Definition role_broadcast (isMaster0 : bool) : list byte :=
  if isMaster0 then BROADCAST_MAC_MASTER else BROADCAST_MAC_SLAVE.

(** Every entry's [peerID] is its position in the vector. *)
Definition ids_follow_index (ps : list peers_t) : Prop :=
  forall (i : nat) (p : peers_t), ps !! i = Some p -> peerID p = Z.of_nat i.

(** The [n]-th of a family of distinct slave addresses. *)
Definition nth_mac (n : nat) : list byte :=
  [x24; x6f; x28; x00; x00; default x00 (Byte.of_nat n)].

(** A master that has learned [n] slaves, one after the other. *)
Definition master_with (n : nat) : world :=
  run_ops ((fun i => Add (nth_mac i)) <$> seq 0 n) (begin true ESP_OK power_on).

(** A master object whose public vector was filled with 256 entries by
    hand, beyond what the driver would ever accept. *)
Definition crowded_master : world :=
  World (set_peers (replicate 256 (Peer 0 mac_A)) (set_isMaster true fresh))
        (EspNow true []) [].

(** ** The buffers primitives *)

Lemma sizeof_slave_data_t_eq : sizeof_slave_data_t = 80.
Proof. reflexivity. Qed.

Lemma sizeof_master_cmd_t_eq : sizeof_master_cmd_t = 12.
Proof. reflexivity. Qed.

Lemma byte_val_inj (x y : byte) : byte_val x = byte_val y -> x = y.
Proof.
  unfold byte_val. intros H. apply N2Z.inj in H.
  assert (Hs : Some x = Some y); [|congruence].
  rewrite <- (Byte.of_to_N x), <- (Byte.of_to_N y). now rewrite H.
Qed.

Lemma memcmp_cons (x y : byte) (a b : list byte) (n : nat) :
  memcmp (x :: a) (y :: b) (S n) =
  if decide (x = y) then memcmp a b n else (byte_val x - byte_val y)%Z.
Proof. reflexivity. Qed.

Lemma memcmp_refl (a : list byte) (n : nat) : memcmp a a n = 0%Z.
Proof.
  revert a. induction n as [|n IH]; intros [|x a]; try reflexivity.
  rewrite memcmp_cons. destruct (decide (x = x)); [apply IH | congruence].
Qed.

Lemma memcmp_zero_take (n : nat) : forall a b : list byte,
  n <= length a -> n <= length b -> memcmp a b n = 0%Z -> take n a = take n b.
Proof.
  induction n as [|n IH]; intros a b Ha Hb H; [reflexivity|].
  destruct a as [|x a]; [simpl in Ha; lia|].
  destruct b as [|y b]; [simpl in Hb; lia|].
  rewrite memcmp_cons in H. simpl in *. destruct (decide (x = y)) as [->|Hne].
  - f_equal. apply IH; [lia | lia | exact H].
  - exfalso. apply Hne, byte_val_inj. lia.
Qed.

Lemma memcmp_take_zero (n : nat) : forall a b : list byte,
  take n a = take n b -> memcmp a b n = 0%Z.
Proof.
  induction n as [|n IH]; intros a b H; [reflexivity|].
  destruct a as [|x a], b as [|y b]; try reflexivity.
  rewrite memcmp_cons. simpl in H.
  injection H as -> H. destruct (decide (y = y)); [now apply IH | congruence].
Qed.

(** On two objects of [n] bytes, [memcmp] returns zero exactly when they
    are equal. *)
Lemma memcmp_zero_iff (a b : list byte) (n : nat) :
  length a = n -> length b = n -> memcmp a b n = 0%Z <-> a = b.
Proof.
  intros Ha Hb. split.
  - intros H. apply memcmp_zero_take in H; [|lia|lia].
    rewrite !take_ge in H by lia. exact H.
  - intros ->. apply memcmp_refl.
Qed.

Lemma memset_whole (dst : list byte) (c : byte) (n : nat) :
  length dst = n -> memset dst c n = replicate n c.
Proof.
  intros H. unfold memset. rewrite drop_ge by lia. apply app_nil_r.
Qed.

Lemma memcpy_whole (dst src : list byte) (n : nat) :
  length dst = n -> length src = n -> memcpy dst src n = src.
Proof.
  intros Hd Hs. unfold memcpy. rewrite drop_ge by lia.
  rewrite take_ge by lia. apply app_nil_r.
Qed.

Lemma mac_copy (addr : list byte) :
  length addr = 6 -> memcpy (replicate 6 x00) addr 6 = addr.
Proof. intros H. apply memcpy_whole; [reflexivity | exact H]. Qed.

(** ** Layout of the packed records *)

Lemma place_packed_tiles (fs : Layout.struct) : forall off : nat,
  Layout.tiles off (Layout.place_packed off fs) (off + Layout.sizeof_packed fs).
Proof.
  induction fs as [|[f t] fs IH]; intros off; simpl.
  - lia.
  - split; [reflexivity|].
    replace (off + (Layout.sizeof t + Layout.sizeof_packed fs))
      with (off + Layout.sizeof t + Layout.sizeof_packed fs) by lia.
    apply IH.
Qed.

(** C8: the slave snapshot is laid out as a 16-byte [button_data] block at
    offset 0 followed by a 64-byte [data] block at offset 16, 80 bytes in
    all; the command snapshot as [mainId], [subId], [index1], [index2] (one
    byte each, offsets 0 to 3), the 4-byte float [value] at offset 4 and the
    4-byte [int32_t] [valueInt] at offset 8, 12 bytes in all; in both
    records the fields tile the whole object in declaration order, without
    padding. *)
Theorem wire_records_packed :
  Layout.place_packed 0 Layout.slave_data_t =
    [ Layout.Slot "button_data" 0 16; Layout.Slot "data" 16 64 ] /\
  Layout.tiles 0 (Layout.place_packed 0 Layout.slave_data_t) 80 /\
  sizeof_slave_data_t = 80 /\
  Layout.place_packed 0 Layout.master_cmd_t =
    [ Layout.Slot "mainId" 0 1; Layout.Slot "subId" 1 1;
      Layout.Slot "index1" 2 1; Layout.Slot "index2" 3 1;
      Layout.Slot "value" 4 4; Layout.Slot "valueInt" 8 4 ] /\
  Layout.tiles 0 (Layout.place_packed 0 Layout.master_cmd_t) 12 /\
  sizeof_master_cmd_t = 12.
Proof.
  split; [reflexivity|]. split; [apply (place_packed_tiles Layout.slave_data_t 0)|].
  split; [reflexivity|]. split; [reflexivity|].
  split; [apply (place_packed_tiles Layout.master_cmd_t 0) | reflexivity].
Qed.

(** ** [resetData] and the search of [removePeer] *)

Lemma resetData_peers (w : world) : peers (node (resetData w)) = peers (node w).
Proof. reflexivity. Qed.

Lemma resetData_esp_now (w : world) : esp_now (resetData w) = esp_now w.
Proof. reflexivity. Qed.

Lemma resetData_sent (w : world) : sent (resetData w) = sent w.
Proof. reflexivity. Qed.

Lemma resetData_zero (w : world) :
  buffers_ok (node w) -> buffers_zero (node (resetData w)).
Proof.
  intros [H1 H2 H3 H4 H5]. split; simpl; now apply memset_whole.
Qed.

Lemma buffers_zero_ok (o : EmcEspNow) : buffers_zero o -> buffers_ok o.
Proof.
  intros [H1 H2 H3 H4 H5]. split.
  - rewrite H1. apply length_replicate.
  - rewrite H3. apply length_replicate.
  - rewrite H4. apply length_replicate.
  - rewrite H5. apply length_replicate.
  - rewrite H2. apply length_replicate.
Qed.

Lemma erase_first_None (m : list byte) (ps : list peers_t) :
  erase_first m ps = None <-> has_peer m ps = false.
Proof.
  unfold has_peer. induction ps as [|p ps IH]; simpl; [tauto|].
  destruct (bool_decide (memcmp (peer_mac p) m 6 = 0%Z)); simpl.
  - split; intros H; discriminate H.
  - rewrite <- IH. destruct (erase_first m ps); simpl; split; congruence.
Qed.

Lemma erase_first_Some (m : list byte) (ps : list peers_t) :
  has_peer m ps = true -> exists ps', erase_first m ps = Some ps' /\ S (length ps') = length ps.
Proof.
  unfold has_peer. induction ps as [|p ps IH]; simpl; [intros H; discriminate H|].
  destruct (bool_decide (memcmp (peer_mac p) m 6 = 0%Z)); simpl; intros H.
  - now exists ps.
  - destruct (IH H) as (ps' & -> & Hl). exists (p :: ps'). simpl. split; [reflexivity | lia].
Qed.

Lemma removePeer_zero (m : list byte) (w : world) :
  buffers_ok (node w) -> buffers_zero (node (removePeer m w)).
Proof.
  intros Hok. pose proof (resetData_zero w Hok) as Hz.
  unfold removePeer. destruct (erase_first m (peers (node (resetData w)))); [|exact Hz].
  destruct Hz as [H1 H2 H3 H4 H5]. split; assumption.
Qed.

(** C10: [removePeer] zeroes the five buffers whatever the address, as its
    first step ([resetData]); when no entry of the vector matches the
    address the call is nothing but that reset: the vector, the driver's
    table and the datagrams sent are as before. *)
Theorem removePeer_resets_unconditionally (peer_mac0 : list byte) (w : world) :
  buffers_ok (node w) ->
  buffers_zero (node (resetData w)) /\
  buffers_zero (node (removePeer peer_mac0 w)) /\
  (has_peer peer_mac0 (peers (node w)) = false ->
     removePeer peer_mac0 w = resetData w /\
     peers (node (removePeer peer_mac0 w)) = peers (node w) /\
     esp_now (removePeer peer_mac0 w) = esp_now w /\
     sent (removePeer peer_mac0 w) = sent w).
Proof.
  intros Hok. split; [now apply resetData_zero|]. split; [now apply removePeer_zero|].
  intros Habs. apply erase_first_None in Habs.
  assert (E : removePeer peer_mac0 w = resetData w).
  { unfold removePeer. rewrite resetData_peers, Habs. reflexivity. }
  rewrite E. repeat split; reflexivity.
Qed.

(** ** Send-failure handling *)

Lemma erase_first_split (m : list byte) (ps ps' : list peers_t) :
  erase_first m ps = Some ps' ->
  exists ps1 p ps2,
    ps = ps1 ++ p :: ps2 /\ ps' = ps1 ++ ps2 /\
    memcmp (peer_mac p) m 6 = 0%Z /\ has_peer m ps1 = false.
Proof.
  revert ps'. induction ps as [|q ps IH]; intros ps' H; simpl in H; [discriminate H|].
  destruct (bool_decide (memcmp (peer_mac q) m 6 = 0%Z)) eqn:E.
  - injection H as <-. exists [], q, ps. apply bool_decide_eq_true in E. now repeat split.
  - destruct (erase_first m ps) as [r|]; simpl in H; [|discriminate H].
    injection H as <-. destruct (IH r eq_refl) as (ps1 & p & ps2 & -> & -> & Hp & Hn).
    exists (q :: ps1), p, ps2. repeat split; try assumption.
    unfold has_peer in *. simpl. now rewrite E, Hn.
Qed.

Lemma removePeer_peers (m : list byte) (w : world) :
  peers (node (removePeer m w)) =
  match erase_first m (peers (node w)) with Some ps => ps | None => peers (node w) end.
Proof.
  unfold removePeer. rewrite resetData_peers.
  destruct (erase_first m (peers (node w))); reflexivity.
Qed.

(** C3, as amended: a failure notification zeroes the five buffers; when
    some entry of the directory matches the address, the first such entry
    is removed and nothing else, so the size drops by exactly one; when no
    entry matches, the directory is unchanged. *)
Theorem onSend_fail_evicts (mac_addr : list byte) (w : world) :
  buffers_ok (node w) ->
  let w' := onSend mac_addr ESP_NOW_SEND_FAIL w in
  buffers_zero (node w') /\
  (has_peer mac_addr (peers (node w)) = true ->
     S (length (peers (node w'))) = length (peers (node w)) /\
     exists ps1 p ps2,
       peers (node w) = ps1 ++ p :: ps2 /\ peers (node w') = ps1 ++ ps2 /\
       memcmp (peer_mac p) mac_addr 6 = 0%Z /\ has_peer mac_addr ps1 = false) /\
  (has_peer mac_addr (peers (node w)) = false -> peers (node w') = peers (node w)).
Proof.
  intros Hok w'. subst w'. unfold onSend. simpl.
  split; [now apply removePeer_zero|]. rewrite removePeer_peers. split.
  - intros Hin. destruct (erase_first_Some _ _ Hin) as (ps' & E & Hl).
    rewrite E. split; [exact Hl|]. now apply erase_first_split.
  - intros Hout. apply erase_first_None in Hout. now rewrite Hout.
Qed.

Lemma onSend_fail_evicts_witness :
  buffers_ok (node slave_paired) /\
  has_peer mac_master (peers (node slave_paired)) = true /\
  buffers_zero (node (onSend mac_master ESP_NOW_SEND_FAIL slave_paired)) /\
  S (length (peers (node (onSend mac_master ESP_NOW_SEND_FAIL slave_paired)))) =
    length (peers (node slave_paired)).
Proof.
  assert (Hok : buffers_ok (node slave_paired)) by (split; reflexivity).
  split; [exact Hok|]. split; [reflexivity|].
  destruct (onSend_fail_evicts mac_master slave_paired Hok) as (Hz & Hin & _).
  split; [exact Hz|]. exact (proj1 (Hin eq_refl)).
Defined.

(** A failure reported for an address that is not in the directory leaves
    the size as it was: the paired slave still has its two entries. *)
Lemma onSend_fail_absent_keeps_size :
  has_peer mac_B (peers (node slave_paired)) = false /\
  length (peers (node slave_paired)) = 2 /\
  length (peers (node (onSend mac_B ESP_NOW_SEND_FAIL slave_paired))) = 2 /\
  ~ (forall (w : world) (mac_addr : list byte),
       S (length (peers (node (onSend mac_addr ESP_NOW_SEND_FAIL w)))) =
       length (peers (node w))).
Proof.
  split; [reflexivity|]. split; [reflexivity|]. split; [reflexivity|].
  intros H. specialize (H slave_paired mac_B). discriminate H.
Qed.

(** ** [update] *)

Lemma world_eta (w : world) : World (node w) (esp_now w) (sent w) = w.
Proof. now destruct w. Qed.

Lemma emitted_app (w w' : world) (ds : list datagram) :
  sent w' = sent w ++ ds -> emitted w w' = ds.
Proof. intros H. unfold emitted. rewrite H. apply drop_app_length. Qed.

Lemma emitted_same (w : world) : emitted w w = [].
Proof. apply emitted_app. symmetry. apply app_nil_r. Qed.

(** Without wrap-around the 32-bit difference is the elapsed time. *)
Lemma ulong_sub_exact (now last : Z) :
  (0 <= last <= now)%Z -> (now < 2 ^ 32)%Z -> ulong_sub now last = (now - last)%Z.
Proof. intros H1 H2. unfold ulong_sub. apply Z.mod_small. lia. Qed.

(** C9: a slave whose directory holds the broadcast identity only never
    unicasts in [update]; it broadcasts exactly when the clock, read for the
    test, is more than 100 ms past [broadcastMillis] (the difference taken
    on 32 bits), and then sets [broadcastMillis] to the current time, the
    clock as read again for the assignment; otherwise the call changes
    nothing. *)
Theorem slave_searching_update (fuel : nat) (millis : nat -> Z) (w : world) :
  isMaster (node w) = false ->
  length (peers (node w)) = 1 ->
  exists w',
    update fuel millis w = Done w' /\
    sent w' = sent w ++ emitted w w' /\
    filter is_unicast (emitted w w') = [] /\
    ((100 < (millis 0%nat - broadcastMillis (node w)) mod 2 ^ 32)%Z ->
       emitted w w' = [Broadcast BROADCAST_MAC_SLAVE 15] /\
       broadcastMillis (node w') = millis 1%nat) /\
    (~ (100 < (millis 0%nat - broadcastMillis (node w)) mod 2 ^ 32)%Z ->
       emitted w w' = [] /\ w' = w).
Proof.
  intros Hslave Hone. unfold update. rewrite Hslave, Hone. simpl.
  change (ulong_sub (millis 0%nat) (broadcastMillis (node w)))
    with ((millis 0%nat - broadcastMillis (node w)) mod 2 ^ 32)%Z.
  destruct (bool_decide (100 < (millis 0%nat - broadcastMillis (node w)) mod 2 ^ 32)%Z) eqn:E.
  - apply bool_decide_eq_true in E. eexists. split; [reflexivity|].
    assert (Hs : sent (sendBroadcast (with_node (set_broadcastMillis (millis 1%nat)) w)) =
                 sent w ++ [Broadcast BROADCAST_MAC_SLAVE 15]).
    { unfold sendBroadcast. simpl. rewrite Hslave. reflexivity. }
    rewrite (emitted_app _ _ _ Hs). split; [exact Hs|]. split; [reflexivity|]. split.
    + intros _. split; [reflexivity|]. unfold sendBroadcast. simpl. rewrite Hslave. reflexivity.
    + intros Hn. contradiction.
  - apply bool_decide_eq_false in E. exists w. split; [reflexivity|].
    rewrite emitted_same. split; [symmetry; apply app_nil_r|]. split; [reflexivity|]. split.
    + intros Hy. contradiction.
    + intros _. split; reflexivity.
Qed.

Lemma slave_searching_update_witness :
  isMaster (node slave_waiting) = false /\
  length (peers (node slave_waiting)) = 1 /\
  broadcastMillis (node slave_waiting) = 1000%Z /\
  update 0 (ticking 1100) slave_waiting = Done slave_waiting /\
  exists w',
    update 0 (ticking 1101) slave_waiting = Done w' /\
    emitted slave_waiting w' = [Broadcast BROADCAST_MAC_SLAVE 15] /\
    broadcastMillis (node w') = 1102%Z.
Proof.
  split; [reflexivity|]. split; [reflexivity|]. split; [reflexivity|]. split.
  - destruct (slave_searching_update 0 (ticking 1100) slave_waiting eq_refl eq_refl)
      as (w' & Hu & _ & _ & _ & Hno).
    destruct Hno as [_ Hsame]; [vm_compute; discriminate|].
    rewrite Hu. now rewrite Hsame.
  - destruct (slave_searching_update 0 (ticking 1101) slave_waiting eq_refl eq_refl)
      as (w' & Hu & _ & _ & Hyes & _).
    exists w'. split; [exact Hu|]. apply Hyes. vm_compute. reflexivity.
Defined.

(** C1: a paired slave outside its receive handling sends nothing in
    [update] when the outgoing snapshot equals the last one sent; when the
    two differ it sends one unicast, the whole 80-byte outgoing snapshot,
    to the peer at index 1, and the last-sent copy then equals the outgoing
    snapshot. *)
Theorem slave_paired_update (fuel : nat) (millis : nat -> Z) (w : world) :
  isMaster (node w) = false ->
  2 <= length (peers (node w)) ->
  masterHasCommand (node w) = false ->
  buffers_ok (node w) ->
  exists w',
    update fuel millis w = Done w' /\
    sent w' = sent w ++ emitted w w' /\
    (slaveSendData (node w) = lastSlaveSendData (node w) ->
       emitted w w' = [] /\ w' = w) /\
    (slaveSendData (node w) <> lastSlaveSendData (node w) ->
       exists p,
         peers (node w) !! 1 = Some p /\
         emitted w w' = [Unicast (peer_mac p) (slaveSendData (node w))] /\
         length (slaveSendData (node w)) = 80 /\
         slaveSendData (node w') = slaveSendData (node w) /\
         lastSlaveSendData (node w') = slaveSendData (node w')).
Proof.
  intros Hslave Hpaired Hfree [Hs _ _ _ Hl]. unfold update. rewrite Hslave, Hfree.
  replace (bool_decide (length (peers (node w)) = 1)) with false
    by (symmetry; apply bool_decide_eq_false; lia).
  simpl.
  destruct (lookup_lt_is_Some_2 (peers (node w)) 1) as [p Hp]; [lia|].
  rewrite Hp.
  destruct (bool_decide (memcmp (slaveSendData (node w)) (lastSlaveSendData (node w))
                           sizeof_slave_data_t <> 0%Z)) eqn:E.
  - apply bool_decide_eq_true in E.
    assert (Hne : slaveSendData (node w) <> lastSlaveSendData (node w)).
    { intros Heq. apply E. now apply memcmp_zero_iff. }
    eexists. split; [reflexivity|].
    assert (Hsent : sent (with_node (fun o1 => set_lastSlaveSendData
                      (memcpy (lastSlaveSendData o1) (slaveSendData o1) sizeof_slave_data_t) o1)
                      (sendUnicast (peer_mac p) (slaveSendData (node w)) sizeof_slave_data_t w)) =
                    sent w ++ [Unicast (peer_mac p) (slaveSendData (node w))]).
    { simpl. now rewrite take_ge by lia. }
    rewrite (emitted_app _ _ _ Hsent). split; [exact Hsent|]. split.
    + intros Heq. contradiction.
    + intros _. exists p. split; [reflexivity|]. split; [reflexivity|].
      split; [exact Hs|]. split; [reflexivity|]. simpl. now apply memcpy_whole.
  - apply bool_decide_eq_false in E.
    assert (Heq : slaveSendData (node w) = lastSlaveSendData (node w)).
    { apply (memcmp_zero_iff _ _ sizeof_slave_data_t Hs Hl).
      destruct (decide (memcmp (slaveSendData (node w)) (lastSlaveSendData (node w))
                          sizeof_slave_data_t = 0%Z)); [assumption | contradiction]. }
    exists w. split; [reflexivity|]. rewrite emitted_same.
    split; [symmetry; apply app_nil_r|]. split.
    + intros _. split; reflexivity.
    + intros Hne. contradiction.
Qed.

Lemma slave_paired_update_witness :
  let w := with_node (set_slaveSendData one_button) slave_paired in
  isMaster (node w) = false /\
  2 <= length (peers (node w)) /\
  masterHasCommand (node w) = false /\
  buffers_ok (node w) /\
  slaveSendData (node w) <> lastSlaveSendData (node w) /\
  exists w',
    update 0 (ticking 0) w = Done w' /\
    emitted w w' = [Unicast mac_master one_button] /\
    lastSlaveSendData (node w') = one_button.
Proof.
  intros w.
  assert (Hok : buffers_ok (node w)) by (split; reflexivity).
  assert (Hne : slaveSendData (node w) <> lastSlaveSendData (node w)) by discriminate.
  split; [reflexivity|]. split; [simpl; lia|]. split; [reflexivity|].
  split; [exact Hok|]. split; [exact Hne|].
  destruct (slave_paired_update 0 (ticking 0) w eq_refl (le_n 2) eq_refl Hok)
    as (w' & Hu & _ & _ & Hdiff).
  destruct (Hdiff Hne) as (p & Hp & He & _ & Hkeep & Hlast).
  exists w'. split; [exact Hu|].
  injection Hp as <-. split; [exact He|]. rewrite Hlast. exact Hkeep.
Defined.

(** The master's loop, started at an index not beyond the end of a vector
    of at most 255 entries, sends the command to the entries from that
    index on, one datagram each, and returns. *)
Lemma update_round_sends (k : nat) : forall (fuel i : nat) (w : world),
  length (peers (node w)) <= 255 ->
  i + k = length (peers (node w)) ->
  k < fuel ->
  update_round fuel (Z.of_nat i) w =
  Done (World (node w) (esp_now w)
          (sent w ++ ((fun p => Unicast (peer_mac p) (take sizeof_master_cmd_t (masterCmdData (node w))))
                        <$> drop i (peers (node w))))).
Proof.
  induction k as [|k IH]; intros fuel i w Hsmall Hik Hfuel;
    (destruct fuel as [|fuel]; [lia|]); simpl.
  - rewrite bool_decide_eq_false_2 by lia.
    rewrite drop_ge by lia. simpl. rewrite app_nil_r. now rewrite world_eta.
  - rewrite bool_decide_eq_true_2 by lia. rewrite Nat2Z.id.
    destruct (lookup_lt_is_Some_2 (peers (node w)) i) as [p Hp]; [lia|].
    rewrite Hp.
    replace ((Z.of_nat i + 1) mod 256)%Z with (Z.of_nat (S i))
      by (rewrite Z.mod_small; lia).
    rewrite IH; simpl; try lia.
    rewrite (drop_S _ _ _ Hp). simpl. now rewrite <- app_assoc.
Qed.

Lemma update_round_empty (fuel : nat) (w : world) :
  peers (node w) = [] -> update_round (S fuel) 1 w = Done w.
Proof. intros H. simpl. rewrite H. reflexivity. Qed.

(** With 256 entries or more the 8-bit counter wraps before it reaches the
    size, and the loop is still running whatever the fuel. *)
Lemma update_round_spins (fuel : nat) : forall (i : Z) (w : world),
  256 <= length (peers (node w)) ->
  (0 <= i < 256)%Z ->
  update_round fuel i w = Spin.
Proof.
  induction fuel as [|fuel IH]; intros i w Hbig Hi; simpl; [reflexivity|].
  rewrite bool_decide_eq_true_2 by lia.
  destruct (lookup_lt_is_Some_2 (peers (node w)) (Z.to_nat i)) as [p Hp]; [lia|].
  rewrite Hp. apply IH; [exact Hbig|]. apply Z.mod_pos_bound. lia.
Qed.

Lemma directory_ok_length (w : world) :
  directory_ok w -> length (peers (node w)) <= ESP_NOW_MAX_TOTAL_PEER_NUM.
Proof.
  intros [Hm _ Hl]. rewrite <- Hm in Hl. now rewrite length_fmap in Hl.
Qed.

(** The whole loop, entered at index 1. *)
Lemma update_round_from_one (fuel : nat) (w : world) :
  length (peers (node w)) <= 255 ->
  length (peers (node w)) < fuel ->
  update_round fuel 1 w =
  Done (World (node w) (esp_now w)
          (sent w ++ ((fun p => Unicast (peer_mac p) (take sizeof_master_cmd_t (masterCmdData (node w))))
                        <$> drop 1 (peers (node w))))).
Proof.
  intros Hsmall Hfuel. destruct (peers (node w)) as [|p0 ps] eqn:Eps.
  - destruct fuel as [|fuel]; [simpl in Hfuel; lia|].
    rewrite (update_round_empty fuel w Eps). simpl. now rewrite app_nil_r, world_eta.
  - change 1%Z with (Z.of_nat 1).
    rewrite (update_round_sends (length ps) fuel 1 w); rewrite ?Eps; simpl in *; try lia.
    reflexivity.
Qed.

(** C2: a master's [update] sends the 12-byte command snapshot once to
    every entry of the directory from index 1 on, in order, and nothing
    else; whether the snapshot equals [lastmasterCmdData] plays no part, and
    the object itself is left as it was. *)
Theorem master_update_round (fuel : nat) (millis : nat -> Z) (w : world) :
  isMaster (node w) = true ->
  directory_ok w ->
  buffers_ok (node w) ->
  length (peers (node w)) < fuel ->
  exists w',
    update fuel millis w = Done w' /\
    sent w' = sent w ++ emitted w w' /\
    emitted w w' =
      ((fun p => Unicast (peer_mac p) (masterCmdData (node w))) <$> drop 1 (peers (node w))) /\
    length (masterCmdData (node w)) = 12 /\
    node w' = node w.
Proof.
  intros Hmaster Hdir [_ _ Hc _ _] Hfuel. unfold update. rewrite Hmaster. simpl.
  pose proof (directory_ok_length w Hdir) as Hlen. unfold ESP_NOW_MAX_TOTAL_PEER_NUM in Hlen.
  rewrite update_round_from_one by lia.
  rewrite (take_ge (masterCmdData (node w))) by lia.
  set (us := (fun p => Unicast (peer_mac p) (masterCmdData (node w))) <$> drop 1 (peers (node w))).
  exists (World (node w) (esp_now w) (sent w ++ us)).
  split; [reflexivity|].
  rewrite (emitted_app w (World (node w) (esp_now w) (sent w ++ us)) us eq_refl).
  repeat split; try reflexivity. exact Hc.
Qed.

Lemma master_update_round_witness :
  let w := master_two_slaves in
  isMaster (node w) = true /\
  directory_ok w /\
  buffers_ok (node w) /\
  length (peers (node w)) < 4 /\
  masterCmdData (node w) = lastmasterCmdData (node w) /\
  exists w',
    update 4 (ticking 0) w = Done w' /\
    emitted w w' = [Unicast mac_A (replicate 12 x00); Unicast mac_B (replicate 12 x00)].
Proof.
  intros w.
  assert (Hdir : directory_ok w).
  { split; [reflexivity | repeat constructor | vm_compute; lia]. }
  assert (Hok : buffers_ok (node w)) by (split; reflexivity).
  assert (Hfuel : length (peers (node w)) < 4) by (vm_compute; lia).
  split; [reflexivity|]. split; [exact Hdir|]. split; [exact Hok|].
  split; [exact Hfuel|]. split; [reflexivity|].
  destruct (master_update_round 4 (ticking 0) w eq_refl Hdir Hok Hfuel) as (w' & Hu & _ & He & _).
  exists w'. split; [exact Hu | exact He].
Defined.

(** A slave with an empty directory passes the size test of [update]
    (the size is not 1) and, once its snapshot differs from the last one
    sent, reads [peers[1]] of a vector without entries. *)
Lemma update_slave_empty_faults (fuel : nat) (millis : nat -> Z) (w : world) :
  isMaster (node w) = false ->
  peers (node w) = [] ->
  masterHasCommand (node w) = false ->
  buffers_ok (node w) ->
  slaveSendData (node w) <> lastSlaveSendData (node w) ->
  update fuel millis w = Fault.
Proof.
  intros Hslave Hempty Hfree [Hs _ _ _ Hl] Hne. unfold update.
  rewrite Hslave, Hfree, Hempty. simpl.
  rewrite bool_decide_eq_true_2; [reflexivity|].
  intros H0. apply Hne. now apply (memcmp_zero_iff _ _ sizeof_slave_data_t Hs Hl).
Qed.

(** C5 fails on the code: when [esp_now_init()] fails, [begin(false)]
    returns with the directory still empty; the main loop then writes a
    pressed button into the outgoing snapshot and calls [update], which
    indexes [peers[1]] past the end of the empty vector. *)
Theorem slave_update_size_zero_out_of_bounds :
  let w := with_node (set_slaveSendData one_button)
             (begin false ESP_ERR_ESPNOW_INTERNAL power_on) in
  isMaster (node w) = false /\
  length (peers (node w)) = 0 /\
  peers (node w) !! 1 = None /\
  update 0 (ticking 0) w = Fault.
Proof. repeat split. Qed.

(** ** [onReceive] *)

Lemma addPeer_node (addr : list byte) (w : world) :
  node (addPeer addr w) = set_peers (peers (node (addPeer addr w))) (node w).
Proof.
  unfold addPeer.
  destruct (esp_now_is_peer_exist _ (esp_now w)); simpl; [now destruct (node w)|].
  destruct (esp_now_add_peer _ (esp_now w)) as [[] d]; simpl; try reflexivity;
    now destruct (node w).
Qed.

Lemma addPeer_sent (addr : list byte) (w : world) : sent (addPeer addr w) = sent w.
Proof.
  unfold addPeer. destruct (esp_now_is_peer_exist _ (esp_now w)); simpl; [reflexivity|].
  now destruct (esp_now_add_peer _ (esp_now w)) as [[] d].
Qed.

Lemma sendBroadcast_node (w : world) : node (sendBroadcast w) = node w.
Proof. unfold sendBroadcast. now destruct (isMaster (node w)). Qed.

Lemma sendBroadcast_esp_now (w : world) : esp_now (sendBroadcast w) = esp_now w.
Proof. unfold sendBroadcast. now destruct (isMaster (node w)). Qed.

Lemma discover_master_node (recv_info : esp_now_recv_info_t) (w : world) :
  node (discover_master recv_info w) =
  set_peers (peers (node (discover_master recv_info w))) (node w).
Proof.
  unfold discover_master.
  destruct (bool_decide (memcmp _ _ 6 = 0%Z)); [|now destruct (node w)].
  destruct (negb _).
  - rewrite addPeer_node. simpl. now rewrite sendBroadcast_node.
  - rewrite sendBroadcast_node. now destruct (node w).
Qed.

Lemma discover_slave_node (recv_info : esp_now_recv_info_t) (w : world) :
  node (discover_slave recv_info w) =
  set_peers (peers (node (discover_slave recv_info w))) (node w).
Proof.
  unfold discover_slave.
  destruct (bool_decide (memcmp _ _ 6 = 0%Z)); [|now destruct (node w)].
  destruct (negb _); [apply addPeer_node | now destruct (node w)].
Qed.

(** C7: on a master a datagram of 80 bytes leaves [masterRecvData] equal to
    the payload, and a datagram of any other length leaves it as it was; on
    a slave the same holds of [masterCmdData] and 12 bytes.  The handler is
    a total function: it has no failing outcome. *)
Theorem onReceive_caches_payload (recv_info : esp_now_recv_info_t) (data : list byte)
    (len : Z) (w : world) :
  buffers_ok (node w) ->
  len = Z.of_nat (length data) ->
  let w' := onReceive recv_info data len w in
  (isMaster (node w) = true ->
     (len = 80%Z -> masterRecvData (node w') = data) /\
     (len <> 80%Z -> masterRecvData (node w') = masterRecvData (node w))) /\
  (isMaster (node w) = false ->
     (len = 12%Z -> masterCmdData (node w') = data) /\
     (len <> 12%Z -> masterCmdData (node w') = masterCmdData (node w))).
Proof.
  intros [_ Hr Hc _ _] Hlen w'. subst w'. unfold onReceive. split; intros Hrole; rewrite Hrole.
  - fold (discover_master recv_info w).
    assert (Hkeep : masterRecvData (node (discover_master recv_info w)) = masterRecvData (node w))
      by (now rewrite discover_master_node).
    split; intros Hl.
    + rewrite bool_decide_eq_true_2 by (rewrite Hl; reflexivity).
      assert (Hd : length data = sizeof_slave_data_t)
        by (rewrite sizeof_slave_data_t_eq; lia).
      destruct (bool_decide (memcmp _ data sizeof_slave_data_t <> 0%Z)) eqn:E.
      * simpl. apply memcpy_whole; [now rewrite Hkeep | exact Hd].
      * apply bool_decide_eq_false in E.
        apply (memcmp_zero_iff _ _ sizeof_slave_data_t); [now rewrite Hkeep | exact Hd |].
        destruct (decide (memcmp (masterRecvData (node (discover_master recv_info w))) data
                            sizeof_slave_data_t = 0%Z)); [assumption | contradiction].
    + rewrite bool_decide_eq_false_2 by (rewrite sizeof_slave_data_t_eq; exact Hl).
      exact Hkeep.
  - fold (discover_slave recv_info w).
    assert (Hkeep : masterCmdData (node (discover_slave recv_info w)) = masterCmdData (node w))
      by (now rewrite discover_slave_node).
    split; intros Hl.
    + rewrite bool_decide_eq_true_2 by (rewrite Hl; reflexivity).
      assert (Hd : length data = sizeof_master_cmd_t)
        by (rewrite sizeof_master_cmd_t_eq; lia).
      simpl.
      destruct (bool_decide (memcmp _ data sizeof_master_cmd_t <> 0%Z)) eqn:E.
      * simpl. apply memcpy_whole; [now rewrite Hkeep | exact Hd].
      * simpl. apply bool_decide_eq_false in E.
        apply (memcmp_zero_iff _ _ sizeof_master_cmd_t); [now rewrite Hkeep | exact Hd |].
        destruct (decide (memcmp (masterCmdData (node (discover_slave recv_info w))) data
                            sizeof_master_cmd_t = 0%Z)); [assumption | contradiction].
    + rewrite bool_decide_eq_false_2 by (rewrite sizeof_master_cmd_t_eq; exact Hl).
      exact Hkeep.
Qed.

Lemma onReceive_caches_payload_witness :
  let w := slave_paired in
  let info := RecvInfo mac_master mac_A in
  buffers_ok (node w) /\
  12%Z = Z.of_nat (length some_command) /\
  isMaster (node w) = false /\
  masterCmdData (node (onReceive info some_command 12 w)) = some_command.
Proof.
  intros w info.
  assert (Hok : buffers_ok (node w)) by (split; reflexivity).
  split; [exact Hok|]. split; [reflexivity|]. split; [reflexivity|].
  destruct (onReceive_caches_payload info some_command 12 w Hok eq_refl) as [_ Hslave].
  exact (proj1 (Hslave eq_refl) eq_refl).
Defined.

(** ** The peer directory *)

Lemma addPeer_known (addr : list byte) (w : world) :
  esp_now_is_peer_exist (memcpy (replicate 6 x00) addr 6) (esp_now w) = true ->
  addPeer addr w = w.
Proof. intros H. unfold addPeer. now rewrite H. Qed.

(** What [addPeer] does with an address the driver does not know yet:
    nothing when the driver refuses it, one entry appended to both the
    vector and the driver's table otherwise. *)
Lemma addPeer_unknown (addr : list byte) (w : world) :
  let a := memcpy (replicate 6 x00) addr 6 in
  esp_now_is_peer_exist a (esp_now w) = false ->
  addPeer addr w = w \/
  (length (peer_list (esp_now w)) < ESP_NOW_MAX_TOTAL_PEER_NUM /\
   addPeer addr w =
     World (set_peers (peers (node w) ++
                       [Peer (Z.of_nat (length (peers (node w))) mod 256)
                             (memcpy (replicate 6 x00) a 6)]) (node w))
           (EspNow (initialised (esp_now w)) (peer_list (esp_now w) ++ [a]))
           (sent w)).
Proof.
  intros a H. unfold addPeer. fold a. rewrite H. simpl.
  unfold esp_now_add_peer. rewrite H.
  destruct (initialised (esp_now w)); simpl; [|left; apply world_eta].
  destruct (bool_decide (ESP_NOW_MAX_TOTAL_PEER_NUM <= length (peer_list (esp_now w)))) eqn:E;
    [left; apply world_eta|].
  apply bool_decide_eq_false in E. right. split; [lia | reflexivity].
Qed.

Lemma addPeer_twice (addr : list byte) (w : world) :
  addPeer addr (addPeer addr w) = addPeer addr w.
Proof.
  destruct (esp_now_is_peer_exist (memcpy (replicate 6 x00) addr 6) (esp_now w)) eqn:E.
  - now rewrite !(addPeer_known addr w E).
  - destruct (addPeer_unknown addr w E) as [Hsame | [_ Hnew]].
    + now rewrite !Hsame.
    + rewrite Hnew. apply addPeer_known. simpl. unfold esp_now_is_peer_exist. simpl.
      apply bool_decide_eq_true. apply elem_of_app. right. apply list_elem_of_singleton.
      reflexivity.
Qed.

(** C6: adding an address that the directory already holds changes
    nothing, neither the entries nor the size, and adding any address twice
    in a row gives the same directory as adding it once. *)
Theorem addPeer_idempotent (addr : list byte) (w : world) :
  directory_ok w ->
  length addr = 6 ->
  (addr ∈ peer_mac <$> peers (node w) ->
     addPeer addr w = w /\
     peers (node (addPeer addr w)) = peers (node w) /\
     length (peers (node (addPeer addr w))) = length (peers (node w))) /\
  addPeer addr (addPeer addr w) = addPeer addr w /\
  length (peers (node (addPeer addr (addPeer addr w)))) =
    length (peers (node (addPeer addr w))).
Proof.
  intros [Hmirror _ _] Hlen. split.
  - intros Hin. assert (E : addPeer addr w = w).
    { apply addPeer_known. rewrite (mac_copy addr Hlen).
      apply bool_decide_eq_true. now rewrite <- Hmirror. }
    rewrite E. repeat split.
  - rewrite addPeer_twice. split; reflexivity.
Qed.

Lemma addPeer_idempotent_witness :
  directory_ok slave_paired /\
  length mac_master = 6 /\
  mac_master ∈ peer_mac <$> peers (node slave_paired) /\
  addPeer mac_master slave_paired = slave_paired /\
  length (peers (node (addPeer mac_A (addPeer mac_A slave_paired)))) =
    length (peers (node (addPeer mac_A slave_paired))).
Proof.
  assert (Hdir : directory_ok slave_paired).
  { split; [reflexivity | repeat constructor | vm_compute; lia]. }
  assert (Hin : mac_master ∈ peer_mac <$> peers (node slave_paired)).
  { vm_compute. apply list_elem_of_further, list_elem_of_here. }
  split; [exact Hdir|]. split; [reflexivity|]. split; [exact Hin|].
  split.
  - exact (proj1 (proj1 (addPeer_idempotent mac_master slave_paired Hdir eq_refl) Hin)).
  - exact (proj2 (proj2 (addPeer_idempotent mac_A slave_paired Hdir eq_refl))).
Defined.

(** C4 fails on the code: [addPeer] numbers a new entry with the current
    size of the vector.  On a master that learned A and B, lost A and then
    learned C, the entries of B and C both carry [peerID] 2; and after A is
    lost as the only slave, the next slave B receives A's former [peerID]
    1. *)
Theorem peerID_reused_after_removal :
  let w0 := begin true ESP_OK power_on in
  let w := run_ops [Add mac_A; Add mac_B; Remove mac_A; Add mac_C] w0 in
  peers (node (run_ops [Add mac_A; Add mac_B] w0)) =
    [Peer 0 BROADCAST_MAC_MASTER; Peer 1 mac_A; Peer 2 mac_B] /\
  peers (node w) = [Peer 0 BROADCAST_MAC_MASTER; Peer 2 mac_B; Peer 2 mac_C] /\
  ~ NoDup (peerID <$> peers (node w)) /\
  peers (node (run_ops [Add mac_A] w0)) = [Peer 0 BROADCAST_MAC_MASTER; Peer 1 mac_A] /\
  peers (node (run_ops [Add mac_A; Remove mac_A; Add mac_B] w0)) =
    [Peer 0 BROADCAST_MAC_MASTER; Peer 1 mac_B].
Proof.
  intros w0 w. split; [reflexivity|]. split; [reflexivity|]. split.
  - intros H. change (peerID <$> peers (node w)) with [0%Z; 2%Z; 2%Z] in H.
    apply NoDup_cons in H as [_ H]. apply NoDup_cons in H as [H _].
    apply H. apply list_elem_of_here.
  - split; reflexivity.
Qed.

(** ** Every reachable world is well formed *)

Lemma power_on_ok : directory_ok power_on /\ buffers_ok (node power_on).
Proof.
  split; split; try reflexivity; [constructor | simpl; unfold ESP_NOW_MAX_TOTAL_PEER_NUM; lia].
Qed.

Lemma resetData_directory_ok (w : world) : directory_ok w -> directory_ok (resetData w).
Proof. intros [H1 H2 H3]. now split. Qed.

Lemma resetData_buffers_ok (w : world) : buffers_ok (node w) -> buffers_ok (node (resetData w)).
Proof. intros H. now apply buffers_zero_ok, resetData_zero. Qed.

Lemma addPeer_buffers_ok (addr : list byte) (w : world) :
  buffers_ok (node w) -> buffers_ok (node (addPeer addr w)).
Proof. intros [H1 H2 H3 H4 H5]. rewrite addPeer_node. now split. Qed.

Lemma addPeer_directory_ok (addr : list byte) (w : world) :
  length addr = 6 -> directory_ok w -> directory_ok (addPeer addr w).
Proof.
  intros Hlen Hdir.
  destruct (esp_now_is_peer_exist (memcpy (replicate 6 x00) addr 6) (esp_now w)) eqn:E.
  - now rewrite (addPeer_known addr w E).
  - destruct (addPeer_unknown addr w E) as [-> | [Hroom ->]]; [exact Hdir|].
    destruct Hdir as [H1 H2 H3]. rewrite !(mac_copy addr Hlen). split; simpl.
    + rewrite fmap_app, H1. reflexivity.
    + apply Forall_app. split; [exact H2 | now repeat constructor].
    + rewrite length_app. simpl. lia.
Qed.

Lemma del_first_absent (m : list byte) (l : list (list byte)) :
  m ∉ l -> del_first m l = l.
Proof.
  induction l as [|a l IH]; intros Hn; simpl; [reflexivity|].
  destruct (decide (a = m)) as [->|Hne].
  - exfalso. apply Hn, list_elem_of_here.
  - f_equal. apply IH. intros Hin. apply Hn. now apply list_elem_of_further.
Qed.

Lemma del_first_length (m : list byte) (l : list (list byte)) :
  length (del_first m l) <= length l.
Proof.
  induction l as [|a l IH]; simpl; [lia|]. destruct (decide (a = m)); simpl; lia.
Qed.

Lemma del_first_Forall (P : list byte -> Prop) (m : list byte) (l : list (list byte)) :
  Forall P l -> Forall P (del_first m l).
Proof.
  induction 1 as [|a l Ha Hl IH]; simpl; [constructor|].
  destruct (decide (a = m)); [exact Hl | now constructor].
Qed.

(** On six-byte addresses the vector's search and the driver's deletion
    pick the same entry. *)
Lemma erase_first_mirror (m : list byte) (ps : list peers_t) :
  length m = 6 ->
  Forall (fun a => length a = 6) (peer_mac <$> ps) ->
  match erase_first m ps with
  | Some ps' => peer_mac <$> ps' = del_first m (peer_mac <$> ps)
  | None => m ∉ peer_mac <$> ps
  end.
Proof.
  intros Hm. induction ps as [|p ps IH]; intros Hall; simpl.
  - apply not_elem_of_nil.
  - apply Forall_cons in Hall as [Hp Hall]. specialize (IH Hall).
    destruct (bool_decide (memcmp (peer_mac p) m 6 = 0%Z)) eqn:E.
    + apply bool_decide_eq_true in E. apply (memcmp_zero_iff _ _ 6 Hp Hm) in E.
      destruct (decide (peer_mac p = m)); [reflexivity | contradiction].
    + apply bool_decide_eq_false in E.
      assert (Hne : peer_mac p <> m).
      { intros Heq. apply E. now apply (memcmp_zero_iff _ _ 6 Hp Hm). }
      destruct (erase_first m ps) as [ps'|]; simpl.
      * destruct (decide (peer_mac p = m)); [contradiction|]. f_equal. exact IH.
      * intros Hin. apply elem_of_cons in Hin as [Heq | Hin]; [now apply Hne | now apply IH].
Qed.

Lemma removePeer_directory_ok (m : list byte) (w : world) :
  length m = 6 -> directory_ok w -> directory_ok (removePeer m w).
Proof.
  intros Hm [H1 H2 H3]. unfold removePeer. rewrite resetData_peers, resetData_esp_now.
  pose proof (erase_first_mirror m (peers (node w)) Hm) as Hmir.
  rewrite H1 in Hmir. specialize (Hmir H2).
  destruct (erase_first m (peers (node w))) as [ps'|].
  - split; simpl.
    + rewrite Hmir. reflexivity.
    + now apply del_first_Forall.
    + pose proof (del_first_length m (peer_list (esp_now w))). lia.
  - now apply resetData_directory_ok.
Qed.

Lemma removePeer_buffers_ok (m : list byte) (w : world) :
  buffers_ok (node w) -> buffers_ok (node (removePeer m w)).
Proof. intros H. now apply buffers_zero_ok, removePeer_zero. Qed.

Lemma begin_ok (isMaster0 : bool) (init : esp_err_t) (w : world) :
  directory_ok w /\ buffers_ok (node w) ->
  directory_ok (begin isMaster0 init w) /\ buffers_ok (node (begin isMaster0 init w)).
Proof.
  intros [Hd Hb]. unfold begin.
  assert (Hd1 : directory_ok (World (node w) (esp_now_init init (esp_now w)) (sent w))).
  { destruct Hd as [H1 H2 H3]. unfold esp_now_init.
    destruct (decide (init = ESP_OK)); now split. }
  destruct (bool_decide (init = ESP_OK)); simpl; [|now split].
  set (w2 := with_node (set_isMaster isMaster0) _).
  assert (Hd2 : directory_ok w2) by (destruct Hd1 as [H1 H2 H3]; now split).
  assert (Hb2 : buffers_ok (node w2)) by (destruct Hb as [B1 B2 B3 B4 B5]; now split).
  destruct isMaster0; simpl; split;
    first [ apply resetData_directory_ok, addPeer_directory_ok; [reflexivity | exact Hd2]
          | apply resetData_buffers_ok, addPeer_buffers_ok; exact Hb2 ].
Qed.

Lemma end_peer_list (ps : list peers_t) : forall d : esp_now_t,
  peer_list d = peer_mac <$> ps ->
  peer_list (foldl (fun d p => esp_now_del_peer (peer_mac p) d) d ps) = [].
Proof.
  induction ps as [|p ps IH]; intros d Hd; simpl; [exact Hd|].
  apply IH. simpl. rewrite Hd. simpl.
  destruct (decide (peer_mac p = peer_mac p)); [reflexivity | contradiction].
Qed.

Lemma end_ok (w : world) :
  directory_ok w /\ buffers_ok (node w) ->
  directory_ok (end_ w) /\ buffers_ok (node (end_ w)).
Proof.
  intros [[H1 H2 H3] Hb]. unfold end_.
  assert (E : peer_list (foldl (fun d p => esp_now_del_peer (peer_mac p) d)
                           (esp_now (resetData w)) (peers (node (resetData w)))) = []).
  { apply end_peer_list. rewrite resetData_peers, resetData_esp_now. now symmetry. }
  split.
  - split; cbn [node esp_now peer_list set_peers peers]; rewrite E.
    + reflexivity.
    + constructor.
    + simpl. unfold ESP_NOW_MAX_TOTAL_PEER_NUM. lia.
  - apply resetData_buffers_ok in Hb. destruct Hb as [B1 B2 B3 B4 B5]. now split.
Qed.

Lemma update_round_frame (fuel : nat) : forall (i : Z) (w w' : world),
  update_round fuel i w = Done w' -> node w' = node w /\ esp_now w' = esp_now w.
Proof.
  induction fuel as [|fuel IH]; intros i w w' H; simpl in H; [discriminate H|].
  destruct (bool_decide (i < Z.of_nat (length (peers (node w))))%Z).
  - destruct (peers (node w) !! Z.to_nat i) as [p|]; [|discriminate H].
    apply IH in H. exact H.
  - injection H as <-. split; reflexivity.
Qed.

Lemma update_ok (fuel : nat) (millis : nat -> Z) (w w' : world) :
  update fuel millis w = Done w' ->
  directory_ok w /\ buffers_ok (node w) ->
  directory_ok w' /\ buffers_ok (node w').
Proof.
  intros H [Hd Hb]. unfold update in H.
  destruct (negb (isMaster (node w)) && bool_decide (length (peers (node w)) = 1)).
  - destruct (bool_decide (100 < ulong_sub (millis 0%nat) (broadcastMillis (node w)))%Z);
      injection H as <-; [|now split].
    destruct Hd as [H1 H2 H3], Hb as [B1 B2 B3 B4 B5].
    unfold sendBroadcast. simpl. destruct (isMaster (node w)); simpl; split; now split.
  - destruct (isMaster (node w)).
    + apply update_round_frame in H as [Hn He].
      destruct Hd as [H1 H2 H3]. rewrite <- Hn, <- He in *. split; [now split | exact Hb].
    + destruct (masterHasCommand (node w)); [injection H as <-; now split|].
      destruct (bool_decide (memcmp _ _ sizeof_slave_data_t <> 0%Z));
        [|injection H as <-; now split].
      destruct (peers (node w) !! 1) as [p|]; [|discriminate H]. injection H as <-.
      destruct Hd as [H1 H2 H3], Hb as [B1 B2 B3 B4 B5]. split; split; simpl; try assumption.
      rewrite (memcpy_whole _ _ sizeof_slave_data_t B5 B1). exact B1.
Qed.

Lemma discover_master_ok (recv_info : esp_now_recv_info_t) (w : world) :
  length (src_addr recv_info) = 6 ->
  directory_ok w -> directory_ok (discover_master recv_info w).
Proof.
  intros Hsrc Hd. unfold discover_master.
  destruct (bool_decide (memcmp _ _ 6 = 0%Z)); [|exact Hd].
  assert (Hd' : directory_ok (sendBroadcast w)).
  { destruct Hd as [H1 H2 H3]. unfold sendBroadcast. destruct (isMaster (node w)); now split. }
  destruct (negb _); [now apply addPeer_directory_ok | exact Hd'].
Qed.

Lemma discover_slave_ok (recv_info : esp_now_recv_info_t) (w : world) :
  length (src_addr recv_info) = 6 ->
  directory_ok w -> directory_ok (discover_slave recv_info w).
Proof.
  intros Hsrc Hd. unfold discover_slave.
  destruct (bool_decide (memcmp _ _ 6 = 0%Z)); [|exact Hd].
  destruct (negb _); [now apply addPeer_directory_ok | exact Hd].
Qed.

Lemma set_peers_buffers_ok (ps : list peers_t) (o : EmcEspNow) :
  buffers_ok o -> buffers_ok (set_peers ps o).
Proof. intros [B1 B2 B3 B4 B5]. now split. Qed.

Lemma onReceive_ok (recv_info : esp_now_recv_info_t) (data : list byte) (w : world) :
  length (src_addr recv_info) = 6 ->
  directory_ok w /\ buffers_ok (node w) ->
  directory_ok (onReceive recv_info data (Z.of_nat (length data)) w) /\
  buffers_ok (node (onReceive recv_info data (Z.of_nat (length data)) w)).
Proof.
  intros Hsrc [Hd Hb]. unfold onReceive. destruct (isMaster (node w)).
  - fold (discover_master recv_info w).
    pose proof (discover_master_ok recv_info w Hsrc Hd) as [H1 H2 H3].
    assert (Hb1 : buffers_ok (node (discover_master recv_info w)))
      by (rewrite discover_master_node; now apply set_peers_buffers_ok).
    destruct (bool_decide (Z.of_nat (length data) = Z.of_nat sizeof_slave_data_t)) eqn:El;
      [|now split].
    apply bool_decide_eq_true, Nat2Z.inj in El.
    destruct (bool_decide (memcmp _ data sizeof_slave_data_t <> 0%Z)); [|now split].
    destruct Hb1 as [B1 B2 B3 B4 B5]. split; split; simpl; try assumption.
    now rewrite (memcpy_whole _ _ sizeof_slave_data_t B2 El).
  - fold (discover_slave recv_info w).
    pose proof (discover_slave_ok recv_info w Hsrc Hd) as [H1 H2 H3].
    assert (Hb1 : buffers_ok (node (discover_slave recv_info w)))
      by (rewrite discover_slave_node; now apply set_peers_buffers_ok).
    destruct (bool_decide (Z.of_nat (length data) = Z.of_nat sizeof_master_cmd_t)) eqn:El;
      [|now split].
    apply bool_decide_eq_true, Nat2Z.inj in El.
    destruct Hb1 as [B1 B2 B3 B4 B5].
    destruct (bool_decide (memcmp _ data sizeof_master_cmd_t <> 0%Z));
      split; split; simpl; try assumption.
    now rewrite (memcpy_whole _ _ sizeof_master_cmd_t B3 El).
Qed.

Lemma onSend_ok (mac_addr : list byte) (status : esp_now_send_status_t) (w : world) :
  length mac_addr = 6 ->
  directory_ok w /\ buffers_ok (node w) ->
  directory_ok (onSend mac_addr status w) /\ buffers_ok (node (onSend mac_addr status w)).
Proof.
  intros Hm [Hd Hb]. unfold onSend.
  destruct (bool_decide (status = ESP_NOW_SEND_FAIL)); [|now split].
  split; [now apply removePeer_directory_ok | now apply removePeer_buffers_ok].
Qed.

(** Throughout a session the vector mirrors the driver's table of at most
    [ESP_NOW_MAX_TOTAL_PEER_NUM] peers and every buffer keeps the size of
    its struct. *)
Lemma reachable_ok (w : world) :
  reachable w -> directory_ok w /\ buffers_ok (node w).
Proof.
  induction 1 as [ | b init w _ IH | w _ IH | fuel millis w w' _ IH Hu
                 | b w _ IH Hb | b w _ IH Hb | a w _ IH Ha | m w _ IH Hm
                 | info data w _ IH Hsrc | m st w _ IH Hm ].
  - exact power_on_ok.
  - now apply begin_ok.
  - now apply end_ok.
  - exact (update_ok fuel millis w w' Hu IH).
  - destruct IH as [[H1 H2 H3] [B1 B2 B3 B4 B5]]. split; now split.
  - destruct IH as [[H1 H2 H3] [B1 B2 B3 B4 B5]]. split; now split.
  - destruct IH as [Hd Hb']. split; [now apply addPeer_directory_ok | now apply addPeer_buffers_ok].
  - destruct IH as [Hd Hb']. split; [now apply removePeer_directory_ok | now apply removePeer_buffers_ok].
  - now apply onReceive_ok.
  - now apply onSend_ok.
Qed.

(** A master's [update] returns in every reachable world, given fuel for
    one pass over the driver-bounded directory. *)
Lemma reachable_master_update_returns (millis : nat -> Z) (w : world) :
  reachable w -> isMaster (node w) = true ->
  exists w', update (S ESP_NOW_MAX_TOTAL_PEER_NUM) millis w = Done w'.
Proof.
  intros Hr Hm. destruct (reachable_ok w Hr) as [Hd _].
  pose proof (directory_ok_length w Hd) as Hl. unfold ESP_NOW_MAX_TOTAL_PEER_NUM in *.
  unfold update. rewrite Hm. cbn [negb andb].
  rewrite update_round_from_one by lia. eexists. reflexivity.
Qed.

Lemma removePeer_resets_unconditionally_witness :
  buffers_ok (node slave_busy) /\
  has_peer mac_B (peers (node slave_busy)) = false /\
  slaveSendData (node slave_busy) = one_button /\
  lastSlaveSendData (node slave_busy) = one_button /\
  masterRecvData (node slave_busy) = one_button /\
  masterCmdData (node slave_busy) = some_command /\
  lastmasterCmdData (node slave_busy) = some_command /\
  buffers_zero (node (removePeer mac_B slave_busy)) /\
  removePeer mac_B slave_busy <> slave_busy /\
  peers (node (removePeer mac_B slave_busy)) = peers (node slave_busy).
Proof.
  assert (Hok : buffers_ok (node slave_busy)) by (split; reflexivity).
  split; [exact Hok|]. split; [reflexivity|].
  repeat (split; [reflexivity|]).
  destruct (removePeer_resets_unconditionally mac_B slave_busy Hok) as (_ & Hz & Habs).
  split; [exact Hz|]. split; [|exact (proj1 (proj2 (Habs eq_refl)))].
  intros Hsame. rewrite Hsame in Hz. destruct Hz as [Hz _ _ _ _]. discriminate Hz.
Defined.

(** ** Further properties of a session *)

(** What [update] can change: the broadcast timer and the last-sent copy,
    nothing else of the object and nothing of the driver. *)
Lemma update_node (fuel : nat) (millis : nat -> Z) (w w' : world) :
  update fuel millis w = Done w' ->
  esp_now w' = esp_now w /\
  exists (t : Z) (b : list byte),
    node w' = set_broadcastMillis t (set_lastSlaveSendData b (node w)).
Proof.
  intros H. unfold update in H.
  assert (Hid : node w = set_broadcastMillis (broadcastMillis (node w))
                           (set_lastSlaveSendData (lastSlaveSendData (node w)) (node w)))
    by (now destruct (node w)).
  destruct (negb (isMaster (node w)) && bool_decide (length (peers (node w)) = 1)).
  - destruct (bool_decide (100 < ulong_sub (millis 0%nat) (broadcastMillis (node w)))%Z);
      injection H as <-.
    + rewrite sendBroadcast_esp_now, sendBroadcast_node. split; [reflexivity|].
      exists (millis 1%nat), (lastSlaveSendData (node w)). simpl. now destruct (node w).
    + split; [reflexivity|]. eauto.
  - destruct (isMaster (node w)).
    + apply update_round_frame in H as [-> ->]. split; [reflexivity|]. eauto.
    + destruct (masterHasCommand (node w)); [injection H as <-; split; eauto|].
      destruct (bool_decide (memcmp _ _ sizeof_slave_data_t <> 0%Z));
        [|injection H as <-; split; eauto].
      destruct (peers (node w) !! 1) as [p|]; [|discriminate H]. injection H as <-.
      split; [reflexivity|].
      exists (broadcastMillis (node w)),
             (memcpy (lastSlaveSendData (node w)) (slaveSendData (node w)) sizeof_slave_data_t).
      simpl. now destruct (node w).
Qed.

Lemma update_round_sent (fuel : nat) : forall (i : Z) (w w' : world),
  update_round fuel i w = Done w' ->
  exists ds, sent w' = sent w ++ ds.
Proof.
  induction fuel as [|fuel IH]; intros i w w' H; simpl in H; [discriminate H|].
  destruct (bool_decide (i < Z.of_nat (length (peers (node w))))%Z).
  - destruct (peers (node w) !! Z.to_nat i) as [p|]; [|discriminate H].
    apply IH in H as (ds & Hs). simpl in Hs.
    exists (Unicast (peer_mac p) (take sizeof_master_cmd_t (masterCmdData (node w))) :: ds).
    now rewrite Hs, <- app_assoc.
  - injection H as <-. exists []. now rewrite app_nil_r.
Qed.

(** X10: whatever its role and state, a call of [update] that returns has
    left the directory, the driver's table, the role, the guard flag and
    every buffer other than the last-sent copy as they were, and has only
    appended to what was sent. *)
Theorem update_frame (fuel : nat) (millis : nat -> Z) (w w' : world) :
  update fuel millis w = Done w' ->
  peers (node w') = peers (node w) /\
  esp_now w' = esp_now w /\
  isMaster (node w') = isMaster (node w) /\
  masterHasCommand (node w') = masterHasCommand (node w) /\
  slaveSendData (node w') = slaveSendData (node w) /\
  masterRecvData (node w') = masterRecvData (node w) /\
  masterCmdData (node w') = masterCmdData (node w) /\
  lastmasterCmdData (node w') = lastmasterCmdData (node w) /\
  exists ds, sent w' = sent w ++ ds.
Proof.
  intros H. destruct (update_node fuel millis w w' H) as (He & t & b & Hn).
  rewrite Hn. repeat (split; [first [exact He | reflexivity]|]).
  clear He t b Hn. unfold update in H.
  destruct (negb (isMaster (node w)) && bool_decide (length (peers (node w)) = 1)).
  - destruct (bool_decide (100 < ulong_sub (millis 0%nat) (broadcastMillis (node w)))%Z);
      injection H as <-; [|exists []; now rewrite app_nil_r].
    unfold sendBroadcast. simpl. destruct (isMaster (node w)); simpl; eauto.
  - destruct (isMaster (node w)).
    + apply update_round_sent in H as (ds & Hs). eauto.
    + destruct (masterHasCommand (node w));
        [injection H as <-; exists []; now rewrite app_nil_r|].
      destruct (bool_decide (memcmp _ _ sizeof_slave_data_t <> 0%Z));
        [|injection H as <-; exists []; now rewrite app_nil_r].
      destruct (peers (node w) !! 1) as [p|]; [|discriminate H]. injection H as <-.
      simpl. eauto.
Qed.

Lemma update_frame_witness :
  let w := with_node (set_slaveSendData one_button) slave_paired in
  exists w',
    update 0 (ticking 0) w = Done w' /\
    peers (node w') = peers (node w) /\
    esp_now w' = esp_now w.
Proof.
  intros w. eexists. split; [reflexivity|].
  destruct (update_frame 0 (ticking 0) w _ eq_refl) as (Hp & He & _).
  split; [exact Hp | exact He].
Defined.

(** X11: on a master whose vector holds 256 entries or more the 8-bit loop
    counter of [update] wraps to 0 before it reaches the size: the call is
    still sending whatever the fuel, it never returns. *)
Theorem update_master_overflow_spins (fuel : nat) (millis : nat -> Z) (w : world) :
  isMaster (node w) = true ->
  256 <= length (peers (node w)) ->
  update fuel millis w = Spin.
Proof.
  intros Hm Hbig. unfold update. rewrite Hm. cbn [negb andb].
  apply update_round_spins; [exact Hbig | lia].
Qed.

Lemma update_master_overflow_spins_witness :
  isMaster (node crowded_master) = true /\
  256 <= length (peers (node crowded_master)) /\
  update 1000 (ticking 0) crowded_master = Spin.
Proof.
  assert (Hbig : 256 <= length (peers (node crowded_master))).
  { change (256 <= length (replicate 256 (Peer 0 mac_A))). rewrite length_replicate. lia. }
  split; [reflexivity|]. split; [exact Hbig|].
  exact (update_master_overflow_spins 1000 (ticking 0) crowded_master eq_refl Hbig).
Defined.

Lemma del_first_NoDup (m : list byte) (l : list (list byte)) :
  NoDup l -> NoDup (del_first m l).
Proof.
  induction 1 as [|a l Ha Hl IH]; simpl; [constructor|].
  destruct (decide (a = m)); [exact Hl|]. constructor; [|exact IH].
  intros Hin. apply Ha. clear -Hin. induction l as [|b l IHl]; simpl in Hin.
  - now apply elem_of_nil in Hin.
  - destruct (decide (b = m)).
    + now apply list_elem_of_further.
    + apply elem_of_cons in Hin as [-> | Hin];
        [apply list_elem_of_here | apply list_elem_of_further, IHl, Hin].
Qed.

Lemma addPeer_table_NoDup (addr : list byte) (w : world) :
  NoDup (peer_list (esp_now w)) -> NoDup (peer_list (esp_now (addPeer addr w))).
Proof.
  intros Hnd.
  destruct (esp_now_is_peer_exist (memcpy (replicate 6 x00) addr 6) (esp_now w)) eqn:E.
  - now rewrite (addPeer_known addr w E).
  - destruct (addPeer_unknown addr w E) as [-> | [_ ->]]; [exact Hnd|]. simpl.
    apply bool_decide_eq_false in E. apply NoDup_app. split; [exact Hnd|]. split.
    + intros x Hx Hin. apply list_elem_of_singleton in Hin. subst x. now apply E.
    + apply NoDup_singleton.
Qed.

Lemma removePeer_table (m : list byte) (w : world) :
  peer_list (esp_now (removePeer m w)) = peer_list (esp_now w) \/
  peer_list (esp_now (removePeer m w)) = del_first m (peer_list (esp_now w)).
Proof.
  unfold removePeer. destruct (erase_first m (peers (node (resetData w)))); [right | left];
    reflexivity.
Qed.

Lemma removePeer_table_NoDup (m : list byte) (w : world) :
  NoDup (peer_list (esp_now w)) -> NoDup (peer_list (esp_now (removePeer m w))).
Proof.
  intros Hnd. destruct (removePeer_table m w) as [-> | ->];
    [exact Hnd | now apply del_first_NoDup].
Qed.

Lemma end_table_NoDup (ps : list peers_t) : forall d : esp_now_t,
  NoDup (peer_list d) ->
  NoDup (peer_list (foldl (fun d p => esp_now_del_peer (peer_mac p) d) d ps)).
Proof.
  induction ps as [|p ps IH]; intros d Hd; simpl; [exact Hd|].
  apply IH. simpl. now apply del_first_NoDup.
Qed.

(** What [onReceive] does to the directory, the driver and the datagrams
    sent is what its discovery half does. *)
Lemma onReceive_discover (recv_info : esp_now_recv_info_t) (data : list byte) (len : Z)
    (w : world) :
  let d := if isMaster (node w) then discover_master recv_info w
           else discover_slave recv_info w in
  peers (node (onReceive recv_info data len w)) = peers (node d) /\
  esp_now (onReceive recv_info data len w) = esp_now d /\
  sent (onReceive recv_info data len w) = sent d.
Proof.
  unfold onReceive. destruct (isMaster (node w)).
  - fold (discover_master recv_info w).
    destruct (bool_decide (len = Z.of_nat sizeof_slave_data_t)); [|now repeat split].
    destruct (bool_decide (memcmp _ data sizeof_slave_data_t <> 0%Z)); now repeat split.
  - fold (discover_slave recv_info w).
    destruct (bool_decide (len = Z.of_nat sizeof_master_cmd_t)); [|now repeat split].
    destruct (bool_decide (memcmp _ data sizeof_master_cmd_t <> 0%Z)); now repeat split.
Qed.

Lemma discover_table_NoDup (recv_info : esp_now_recv_info_t) (w : world) :
  NoDup (peer_list (esp_now w)) ->
  NoDup (peer_list (esp_now (discover_master recv_info w))) /\
  NoDup (peer_list (esp_now (discover_slave recv_info w))).
Proof.
  intros Hnd. unfold discover_master, discover_slave. split.
  - destruct (bool_decide (memcmp _ _ 6 = 0%Z)); [|exact Hnd].
    destruct (negb _).
    + apply addPeer_table_NoDup. now rewrite sendBroadcast_esp_now.
    + now rewrite sendBroadcast_esp_now.
  - destruct (bool_decide (memcmp _ _ 6 = 0%Z)); [|exact Hnd].
    destruct (negb _); [now apply addPeer_table_NoDup | exact Hnd].
Qed.

Lemma reachable_table_NoDup (w : world) :
  reachable w -> NoDup (peer_list (esp_now w)).
Proof.
  induction 1 as [ | b init w _ IH | w _ IH | fuel millis w w' _ IH Hu
                 | b w _ IH Hb | b w _ IH Hb | a w _ IH Ha | m w _ IH Hm
                 | info data w _ IH Hsrc | m st w _ IH Hm ].
  - constructor.
  - unfold begin.
    assert (H1 : NoDup (peer_list (esp_now_init init (esp_now w)))).
    { unfold esp_now_init. now destruct (decide (init = ESP_OK)). }
    destruct (bool_decide (init = ESP_OK)); simpl; [|exact H1].
    destruct b; simpl; now apply addPeer_table_NoDup.
  - unfold end_. simpl. apply end_table_NoDup. exact IH.
  - destruct (update_node fuel millis w w' Hu) as [-> _]. exact IH.
  - exact IH.
  - exact IH.
  - now apply addPeer_table_NoDup.
  - now apply removePeer_table_NoDup.
  - destruct (onReceive_discover info data (Z.of_nat (length data)) w) as (_ & -> & _).
    destruct (discover_table_NoDup info w IH). now destruct (isMaster (node w)).
  - unfold onSend. destruct (bool_decide (st = ESP_NOW_SEND_FAIL)); [|exact IH].
    now apply removePeer_table_NoDup.
Qed.

Lemma slave_paired_reachable : reachable slave_paired.
Proof.
  apply reach_addPeer; [|reflexivity]. apply reach_begin. apply reach_power_on.
Qed.

(** X1: in every world a session can reach, the vector and the driver's
    table list the same addresses in the same order, all six bytes long, at
    most [ESP_NOW_MAX_TOTAL_PEER_NUM] of them, and each of the five buffers
    has the size of its struct. *)
Theorem reachable_well_formed (w : world) :
  reachable w ->
  directory_ok w /\ buffers_ok (node w) /\
  length (peers (node w)) <= ESP_NOW_MAX_TOTAL_PEER_NUM.
Proof.
  intros Hr. destruct (reachable_ok w Hr) as [Hd Hb].
  split; [exact Hd|]. split; [exact Hb|]. now apply directory_ok_length.
Qed.

Lemma reachable_well_formed_witness :
  reachable slave_paired /\
  directory_ok slave_paired /\ buffers_ok (node slave_paired) /\
  length (peers (node slave_paired)) <= ESP_NOW_MAX_TOTAL_PEER_NUM.
Proof.
  split; [exact slave_paired_reachable|].
  exact (reachable_well_formed slave_paired slave_paired_reachable).
Defined.

(** X2: in every reachable world no address occurs twice in the
    directory. *)
Theorem reachable_addresses_unique (w : world) :
  reachable w -> NoDup (peer_mac <$> peers (node w)).
Proof.
  intros Hr. destruct (reachable_ok w Hr) as [[Hmirror _ _] _].
  rewrite Hmirror. now apply reachable_table_NoDup.
Qed.

Lemma reachable_addresses_unique_witness :
  reachable slave_paired /\ NoDup (peer_mac <$> peers (node slave_paired)).
Proof.
  split; [exact slave_paired_reachable|].
  exact (reachable_addresses_unique slave_paired slave_paired_reachable).
Defined.

(** X3: the guard flag [masterHasCommand] is clear in every reachable
    world: [onReceive] sets it and clears it again before it returns, so a
    call of [update] made between two callbacks never finds it set. *)
Theorem reachable_guard_clear (w : world) :
  reachable w -> masterHasCommand (node w) = false.
Proof.
  induction 1 as [ | b init w _ IH | w _ IH | fuel millis w w' _ IH Hu
                 | b w _ IH Hb | b w _ IH Hb | a w _ IH Ha | m w _ IH Hm
                 | info data w _ IH Hsrc | m st w _ IH Hm ].
  - reflexivity.
  - unfold begin. destruct (bool_decide (init = ESP_OK)); simpl; [|exact IH].
    destruct b; simpl; rewrite addPeer_node; exact IH.
  - exact IH.
  - destruct (update_node fuel millis w w' Hu) as (_ & t & c & ->). exact IH.
  - exact IH.
  - exact IH.
  - rewrite addPeer_node. exact IH.
  - unfold removePeer. now destruct (erase_first m (peers (node (resetData w)))).
  - unfold onReceive. destruct (isMaster (node w)).
    + fold (discover_master info w).
      assert (Hk : masterHasCommand (node (discover_master info w)) = false)
        by (now rewrite discover_master_node).
      destruct (bool_decide (_ = Z.of_nat sizeof_slave_data_t)); [|exact Hk].
      now destruct (bool_decide (memcmp _ data sizeof_slave_data_t <> 0%Z)).
    + fold (discover_slave info w).
      destruct (bool_decide (_ = Z.of_nat sizeof_master_cmd_t)); [reflexivity|].
      now rewrite discover_slave_node.
  - unfold onSend. destruct (bool_decide (st = ESP_NOW_SEND_FAIL)); [|exact IH].
    unfold removePeer. now destruct (erase_first m (peers (node (resetData w)))).
Qed.

Lemma reachable_guard_clear_witness :
  reachable slave_paired /\ masterHasCommand (node slave_paired) = false.
Proof.
  split; [exact slave_paired_reachable|].
  exact (reachable_guard_clear slave_paired slave_paired_reachable).
Defined.

(** ** Opening and closing a session *)


(** An address the driver does not know, offered to an initialised driver
    that has room, is appended to both the table and the vector. *)
Lemma addPeer_accepted (addr : list byte) (w : world) :
  let a := memcpy (replicate 6 x00) addr 6 in
  esp_now_is_peer_exist a (esp_now w) = false ->
  initialised (esp_now w) = true ->
  length (peer_list (esp_now w)) < ESP_NOW_MAX_TOTAL_PEER_NUM ->
  addPeer addr w =
    World (set_peers (peers (node w) ++
                      [Peer (Z.of_nat (length (peers (node w))) mod 256)
                            (memcpy (replicate 6 x00) a 6)]) (node w))
          (EspNow true (peer_list (esp_now w) ++ [a]))
          (sent w).
Proof.
  intros a Hnew Hinit Hroom. unfold addPeer. fold a. rewrite Hnew. simpl.
  unfold esp_now_add_peer. rewrite Hnew, Hinit. simpl.
  rewrite bool_decide_eq_false_2 by lia. reflexivity.
Qed.

(** X4: [begin] on an object without peers: when [esp_now_init()] succeeds
    the role is recorded, the directory becomes the single entry with
    [peerID] 0 and the broadcast identity of the role, the five buffers are
    zero and nothing is sent; when it fails, the call changes nothing. *)
Theorem begin_opens_session (isMaster0 : bool) (init : esp_err_t) (w : world) :
  directory_ok w ->
  buffers_ok (node w) ->
  peers (node w) = [] ->
  let w' := begin isMaster0 init w in
  (init = ESP_OK ->
     peers (node w') = [Peer 0 (role_broadcast isMaster0)] /\
     peer_list (esp_now w') = [role_broadcast isMaster0] /\
     isMaster (node w') = isMaster0 /\
     buffers_zero (node w') /\
     sent w' = sent w) /\
  (init <> ESP_OK -> w' = w).
Proof.
  intros [Hmirror _ _] Hb Hempty w'. subst w'.
  destruct w as [o [ini tbl] snt]. simpl in Hmirror, Hb, Hempty.
  rewrite Hempty in Hmirror. simpl in Hmirror. subst tbl.
  unfold begin. split.
  - intros ->. cbn [negb bool_decide decide_rel esp_err_eq_dec].
    rewrite bool_decide_eq_true_2 by reflexivity. cbn [negb].
    set (w2 := with_node (set_isMaster isMaster0) _).
    assert (Hadd : addPeer (role_broadcast isMaster0) w2 =
              World (set_peers [Peer 0 (role_broadcast isMaster0)] (node w2))
                    (EspNow true [role_broadcast isMaster0]) snt).
    { rewrite addPeer_accepted.
      - subst w2. simpl. rewrite Hempty. now destruct isMaster0.
      - now destruct isMaster0.
      - reflexivity.
      - simpl. unfold ESP_NOW_MAX_TOTAL_PEER_NUM. lia. }
    assert (E : (if negb isMaster0 then addPeer BROADCAST_MAC_SLAVE w2
                 else addPeer BROADCAST_MAC_MASTER w2) = addPeer (role_broadcast isMaster0) w2)
      by (now destruct isMaster0).
    rewrite E, Hadd. split; [reflexivity|]. split; [reflexivity|]. split; [reflexivity|].
    split; [|reflexivity].
    apply (resetData_zero (World (set_peers [Peer 0 (role_broadcast isMaster0)] (node w2))
                                 (EspNow true [role_broadcast isMaster0]) snt)).
    destruct Hb as [B1 B2 B3 B4 B5]. now split.
  - intros Hne. rewrite bool_decide_eq_false_2 by exact Hne. simpl.
    unfold esp_now_init. destruct (decide (init = ESP_OK)); [contradiction | reflexivity].
Qed.

Lemma begin_opens_session_witness :
  directory_ok power_on /\ buffers_ok (node power_on) /\ peers (node power_on) = [] /\
  peers (node (begin true ESP_OK power_on)) = [Peer 0 BROADCAST_MAC_MASTER] /\
  begin false ESP_ERR_ESPNOW_INTERNAL power_on = power_on.
Proof.
  destruct power_on_ok as [Hd Hb].
  split; [exact Hd|]. split; [exact Hb|]. split; [reflexivity|]. split.
  - exact (proj1 (proj1 (begin_opens_session true ESP_OK power_on Hd Hb eq_refl) eq_refl)).
  - apply (proj2 (begin_opens_session false ESP_ERR_ESPNOW_INTERNAL power_on Hd Hb eq_refl)).
    discriminate.
Defined.

(** X5: [end] empties the directory and the driver's table, shuts the
    driver down and zeroes the five buffers; the role and the datagrams
    already sent are left as they were. *)
Theorem end_closes_session (w : world) :
  directory_ok w ->
  buffers_ok (node w) ->
  peers (node (end_ w)) = [] /\
  peer_list (esp_now (end_ w)) = [] /\
  initialised (esp_now (end_ w)) = false /\
  buffers_zero (node (end_ w)) /\
  isMaster (node (end_ w)) = isMaster (node w) /\
  sent (end_ w) = sent w.
Proof.
  intros [Hmirror _ _] Hb. unfold end_.
  assert (E : peer_list (foldl (fun d p => esp_now_del_peer (peer_mac p) d)
                           (esp_now (resetData w)) (peers (node (resetData w)))) = []).
  { apply end_peer_list. rewrite resetData_peers, resetData_esp_now. now symmetry. }
  cbn [node esp_now peer_list initialised set_peers peers sent].
  rewrite E. repeat (split; [reflexivity|]). split; [|split; reflexivity].
  destruct (resetData_zero w Hb) as [Z1 Z2 Z3 Z4 Z5]. now split.
Qed.

Lemma end_closes_session_witness :
  directory_ok master_two_slaves /\ buffers_ok (node master_two_slaves) /\
  length (peers (node master_two_slaves)) = 3 /\
  peers (node (end_ master_two_slaves)) = [] /\
  peer_list (esp_now (end_ master_two_slaves)) = [].
Proof.
  assert (Hd : directory_ok master_two_slaves).
  { split; [reflexivity | repeat constructor | vm_compute; lia]. }
  assert (Hb : buffers_ok (node master_two_slaves)) by (split; reflexivity).
  split; [exact Hd|]. split; [exact Hb|]. split; [reflexivity|].
  destruct (end_closes_session master_two_slaves Hd Hb) as (H1 & H2 & _).
  split; [exact H1 | exact H2].
Defined.

(** ** Adding and removing peers *)

Lemma not_known_to_driver (addr : list byte) (w : world) :
  directory_ok w ->
  addr ∉ peer_mac <$> peers (node w) ->
  esp_now_is_peer_exist addr (esp_now w) = false.
Proof.
  intros [Hmirror _ _] Hnew. apply bool_decide_eq_false. now rewrite <- Hmirror.
Qed.

(** X6: adding a six-byte address that the directory does not hold, while
    the driver is initialised and the directory has fewer than
    [ESP_NOW_MAX_TOTAL_PEER_NUM] entries, appends one entry: the address, with
    the former size as its [peerID]; the entries before it, the buffers and
    the datagrams sent are untouched. *)
Theorem addPeer_appends (addr : list byte) (w : world) :
  directory_ok w ->
  initialised (esp_now w) = true ->
  length addr = 6 ->
  addr ∉ peer_mac <$> peers (node w) ->
  length (peers (node w)) < ESP_NOW_MAX_TOTAL_PEER_NUM ->
  peers (node (addPeer addr w)) =
    peers (node w) ++ [Peer (Z.of_nat (length (peers (node w)))) addr] /\
  node (addPeer addr w) = set_peers (peers (node (addPeer addr w))) (node w) /\
  sent (addPeer addr w) = sent w.
Proof.
  intros Hdir Hinit Hlen Hnew Hroom.
  pose proof (not_known_to_driver addr w Hdir Hnew) as Hunk.
  destruct Hdir as [Hmirror _ _].
  split; [|split; [apply addPeer_node | apply addPeer_sent]].
  rewrite addPeer_accepted; rewrite ?(mac_copy addr Hlen); try assumption.
  - simpl. rewrite Z.mod_small; [reflexivity|].
    unfold ESP_NOW_MAX_TOTAL_PEER_NUM in Hroom. lia.
  - rewrite <- Hmirror, length_fmap. exact Hroom.
Qed.

Lemma addPeer_appends_witness :
  directory_ok slave_searching /\
  initialised (esp_now slave_searching) = true /\
  length mac_master = 6 /\
  (mac_master ∉ peer_mac <$> peers (node slave_searching)) /\
  length (peers (node slave_searching)) < ESP_NOW_MAX_TOTAL_PEER_NUM /\
  peers (node (addPeer mac_master slave_searching)) =
    [Peer 0 BROADCAST_MAC_SLAVE; Peer 1 mac_master].
Proof.
  assert (Hd : directory_ok slave_searching).
  { split; [reflexivity | repeat constructor | vm_compute; lia]. }
  assert (Hnew : mac_master ∉ peer_mac <$> peers (node slave_searching)).
  { intros Hin. apply list_elem_of_singleton in Hin. discriminate Hin. }
  assert (Hroom : length (peers (node slave_searching)) < ESP_NOW_MAX_TOTAL_PEER_NUM)
    by (vm_compute; lia).
  split; [exact Hd|]. split; [reflexivity|]. split; [reflexivity|].
  split; [exact Hnew|]. split; [exact Hroom|].
  exact (proj1 (addPeer_appends mac_master slave_searching Hd eq_refl eq_refl Hnew Hroom)).
Defined.

(** X7: [addPeer] changes nothing at all when the driver refuses the
    address: because the driver is not initialised, or because its table
    already holds [ESP_NOW_MAX_TOTAL_PEER_NUM] peers. *)
Theorem addPeer_refused (addr : list byte) (w : world) :
  (initialised (esp_now w) = false \/
   ESP_NOW_MAX_TOTAL_PEER_NUM <= length (peer_list (esp_now w))) ->
  addPeer addr w = w.
Proof.
  intros Hwhy.
  destruct (esp_now_is_peer_exist (memcpy (replicate 6 x00) addr 6) (esp_now w)) eqn:E.
  - now apply addPeer_known.
  - destruct (addPeer_unknown addr w E) as [Hsame | [Hroom Hnew]]; [exact Hsame|].
    destruct Hwhy as [Hoff | Hfull]; [|lia].
    unfold addPeer in Hnew |- *. rewrite E in Hnew |- *. simpl in Hnew |- *.
    unfold esp_now_add_peer in Hnew |- *. rewrite Hoff in Hnew |- *. simpl. apply world_eta.
Qed.

Lemma addPeer_refused_witness :
  length (peers (node (master_with 19))) = 20 /\
  ESP_NOW_MAX_TOTAL_PEER_NUM <= length (peer_list (esp_now (master_with 19))) /\
  addPeer mac_A (master_with 19) = master_with 19 /\
  addPeer mac_A power_on = power_on.
Proof.
  assert (Hfull : ESP_NOW_MAX_TOTAL_PEER_NUM <= length (peer_list (esp_now (master_with 19))))
    by (vm_compute; lia).
  split; [reflexivity|]. split; [exact Hfull|]. split.
  - exact (addPeer_refused mac_A (master_with 19) (or_intror Hfull)).
  - exact (addPeer_refused mac_A power_on (or_introl eq_refl)).
Defined.

Lemma filter_keeps_all (m : list byte) (ps : list peers_t) :
  m ∉ peer_mac <$> ps -> filter (fun p => peer_mac p <> m) ps = ps.
Proof.
  induction ps as [|p ps IH]; intros Hn; [reflexivity|].
  rewrite filter_cons_True.
  - f_equal. apply IH. intros Hin. apply Hn. simpl. now apply list_elem_of_further.
  - intros Heq. apply Hn. simpl. rewrite Heq. apply list_elem_of_here.
Qed.

Lemma erase_first_filter (m : list byte) (ps : list peers_t) :
  length m = 6 ->
  Forall (fun a => length a = 6) (peer_mac <$> ps) ->
  NoDup (peer_mac <$> ps) ->
  match erase_first m ps with Some ps' => ps' | None => ps end =
  filter (fun p => peer_mac p <> m) ps.
Proof.
  intros Hm. induction ps as [|p ps IH]; intros Hall Hnd; [reflexivity|].
  simpl in Hall, Hnd. apply Forall_cons in Hall as [Hp Hall].
  apply NoDup_cons in Hnd as [Hfresh Hnd]. specialize (IH Hall Hnd). simpl.
  destruct (bool_decide (memcmp (peer_mac p) m 6 = 0%Z)) eqn:E.
  - apply bool_decide_eq_true in E. apply (memcmp_zero_iff _ _ 6 Hp Hm) in E.
    rewrite filter_cons_False by (intros Hne; now apply Hne).
    symmetry. apply filter_keeps_all. now rewrite <- E.
  - apply bool_decide_eq_false in E.
    assert (Hne : peer_mac p <> m).
    { intros Heq. apply E. now apply (memcmp_zero_iff _ _ 6 Hp Hm). }
    rewrite filter_cons_True by exact Hne.
    destruct (erase_first m ps) as [ps'|]; exact (f_equal (cons p) IH).
Qed.

(** X8: in a directory without repeated addresses, [removePeer] leaves
    exactly the entries with another address, in their order: the address
    is gone from the directory, every other peer stays. *)
Theorem removePeer_filters (peer_mac0 : list byte) (w : world) :
  directory_ok w ->
  NoDup (peer_mac <$> peers (node w)) ->
  length peer_mac0 = 6 ->
  peers (node (removePeer peer_mac0 w)) =
    filter (fun p => peer_mac p <> peer_mac0) (peers (node w)) /\
  (peer_mac0 ∉ peer_mac <$> peers (node (removePeer peer_mac0 w))) /\
  (forall p, p ∈ peers (node w) -> peer_mac p <> peer_mac0 ->
             p ∈ peers (node (removePeer peer_mac0 w))).
Proof.
  intros [Hmirror Hmacs _] Hnd Hm. rewrite <- Hmirror in Hmacs.
  assert (E : peers (node (removePeer peer_mac0 w)) =
              filter (fun p => peer_mac p <> peer_mac0) (peers (node w))).
  { rewrite removePeer_peers. now apply erase_first_filter. }
  rewrite E. split; [reflexivity|]. split.
  - intros Hin. apply list_elem_of_fmap in Hin as (p & Hp & Hin).
    apply list_elem_of_filter in Hin as [Hne _]. now apply Hne.
  - intros p Hin Hne. apply list_elem_of_filter. now split.
Qed.

Lemma removePeer_filters_witness :
  directory_ok master_two_slaves /\
  NoDup (peer_mac <$> peers (node master_two_slaves)) /\
  length mac_A = 6 /\
  peers (node (removePeer mac_A master_two_slaves)) =
    [Peer 0 BROADCAST_MAC_MASTER; Peer 2 mac_B].
Proof.
  assert (Hd : directory_ok master_two_slaves).
  { split; [reflexivity | repeat constructor | vm_compute; lia]. }
  assert (Hnd : NoDup (peer_mac <$> peers (node master_two_slaves))).
  { refine (bool_decide_unpack _ _). vm_compute. exact I. }
  split; [exact Hd|]. split; [exact Hnd|]. split; [reflexivity|].
  rewrite (proj1 (removePeer_filters mac_A master_two_slaves Hd Hnd eq_refl)).
  reflexivity.
Defined.

Lemma addPeer_ids (addr : list byte) (w : world) :
  directory_ok w ->
  ids_follow_index (peers (node w)) ->
  ids_follow_index (peers (node (addPeer addr w))).
Proof.
  intros [Hmirror _ _] Hids.
  destruct (esp_now_is_peer_exist (memcpy (replicate 6 x00) addr 6) (esp_now w)) eqn:E.
  - now rewrite (addPeer_known addr w E).
  - destruct (addPeer_unknown addr w E) as [-> | [Hroom ->]]; [exact Hids|].
    rewrite <- Hmirror, length_fmap in Hroom. unfold ESP_NOW_MAX_TOTAL_PEER_NUM in Hroom.
    intros i p Hp. simpl in Hp. apply lookup_app_Some in Hp as [Hold | [Hge Hlast]].
    + now apply Hids.
    + destruct (i - length (peers (node w))) as [|k] eqn:Ek; simpl in Hlast; [|discriminate Hlast].
      injection Hlast as <-. simpl. rewrite Z.mod_small by lia. f_equal. lia.
Qed.

Lemma adds_keep_ids (addrs : list (list byte)) : forall w : world,
  Forall (fun a => length a = 6) addrs ->
  directory_ok w ->
  ids_follow_index (peers (node w)) ->
  ids_follow_index (peers (node (run_ops (Add <$> addrs) w))).
Proof.
  induction addrs as [|a addrs IH]; intros w Hall Hd Hids; [exact Hids|].
  apply Forall_cons in Hall as [Ha Hall]. simpl. apply IH; [exact Hall | |].
  - now apply addPeer_directory_ok.
  - now apply addPeer_ids.
Qed.

(** X9: as long as no peer is removed, every entry's [peerID] is its index
    in the directory: after [begin] and any number of [addPeer] calls with
    six-byte addresses, known or new, accepted or refused. *)
Theorem removal_free_session_ids (isMaster0 : bool) (addrs : list (list byte)) :
  Forall (fun a => length a = 6) addrs ->
  ids_follow_index
    (peers (node (run_ops (Add <$> addrs) (begin isMaster0 ESP_OK power_on)))).
Proof.
  intros Hall. apply adds_keep_ids; [exact Hall | |].
  - apply begin_ok. exact power_on_ok.
  - intros i p Hp. destruct isMaster0; destruct i as [|i]; simpl in Hp;
      try discriminate Hp; now injection Hp as <-.
Qed.

Lemma removal_free_session_ids_witness :
  Forall (fun a => length a = 6) [mac_A; mac_B; mac_A; mac_C] /\
  ids_follow_index
    (peers (node (run_ops (Add <$> [mac_A; mac_B; mac_A; mac_C])
                    (begin true ESP_OK power_on)))) /\
  length (peers (node (run_ops (Add <$> [mac_A; mac_B; mac_A; mac_C])
                         (begin true ESP_OK power_on)))) = 4.
Proof.
  assert (Hall : Forall (fun a => length a = 6) [mac_A; mac_B; mac_A; mac_C])
    by (repeat constructor).
  split; [exact Hall|]. split; [|reflexivity].
  exact (removal_free_session_ids true [mac_A; mac_B; mac_A; mac_C] Hall).
Defined.

(** ** Consecutive calls of [update] *)

(** The result of [update] on a slave outside receive handling whose
    directory has an entry at index 1. *)
Lemma update_slave_paired_result (fuel : nat) (millis : nat -> Z) (w : world) (p : peers_t) :
  isMaster (node w) = false ->
  peers (node w) !! 1 = Some p ->
  masterHasCommand (node w) = false ->
  buffers_ok (node w) ->
  update fuel millis w =
  Done (if decide (slaveSendData (node w) = lastSlaveSendData (node w)) then w
        else World (set_lastSlaveSendData (slaveSendData (node w)) (node w)) (esp_now w)
                   (sent w ++ [Unicast (peer_mac p) (slaveSendData (node w))])).
Proof.
  intros Hslave Hp Hfree [Hs _ _ _ Hl]. unfold update. rewrite Hslave, Hfree, Hp.
  assert (Hlen : 2 <= length (peers (node w))).
  { apply lookup_lt_Some in Hp. lia. }
  replace (bool_decide (length (peers (node w)) = 1)) with false
    by (symmetry; apply bool_decide_eq_false; lia).
  simpl.
  destruct (decide (slaveSendData (node w) = lastSlaveSendData (node w))) as [Heq | Hne].
  - rewrite bool_decide_eq_false_2; [reflexivity|].
    intros Hm. apply Hm. now apply memcmp_zero_iff.
  - rewrite bool_decide_eq_true_2.
    + unfold sendUnicast, esp_now_send, with_node. simpl.
      rewrite (memcpy_whole _ _ sizeof_slave_data_t Hl Hs). now rewrite take_ge by lia.
    + intros Hm. apply Hne. now apply (memcmp_zero_iff _ _ sizeof_slave_data_t Hs Hl).
Qed.

(** X12: once a paired slave's [update] has returned, a further call made
    before the scanner changes the outgoing snapshot sends nothing and
    changes nothing, whatever the clock reads. *)
Theorem update_slave_settles (fuel fuel2 : nat) (millis millis2 : nat -> Z) (w w' : world) :
  isMaster (node w) = false ->
  2 <= length (peers (node w)) ->
  masterHasCommand (node w) = false ->
  buffers_ok (node w) ->
  update fuel millis w = Done w' ->
  update fuel2 millis2 w' = Done w'.
Proof.
  intros Hslave Hpaired Hfree Hb Hu.
  destruct (lookup_lt_is_Some_2 (peers (node w)) 1) as [p Hp]; [lia|].
  rewrite (update_slave_paired_result fuel millis w p Hslave Hp Hfree Hb) in Hu.
  injection Hu as <-.
  destruct (decide (slaveSendData (node w) = lastSlaveSendData (node w))) as [Heq | Hne].
  - rewrite (update_slave_paired_result fuel2 millis2 w p Hslave Hp Hfree Hb).
    now destruct (decide (slaveSendData (node w) = lastSlaveSendData (node w))).
  - set (w1 := World _ _ _).
    assert (Hb1 : buffers_ok (node w1)) by (destruct Hb as [B1 B2 B3 B4 B5]; now split).
    rewrite (update_slave_paired_result fuel2 millis2 w1 p Hslave Hp Hfree Hb1).
    destruct (decide (slaveSendData (node w1) = lastSlaveSendData (node w1))) as [_ | Hn];
      [reflexivity | now contradiction Hn].
Qed.

Lemma update_slave_settles_witness :
  let w := with_node (set_slaveSendData one_button) slave_paired in
  exists w',
    update 0 (ticking 0) w = Done w' /\
    sent w' = [Unicast mac_master one_button] /\
    update 0 (ticking 5000) w' = Done w'.
Proof.
  intros w. eexists. split; [reflexivity|]. split; [reflexivity|].
  apply (update_slave_settles 0 0 (ticking 0) (ticking 5000) w); try reflexivity.
  split; reflexivity.
Defined.

(** X13: when a searching slave's [update] has broadcast, having stored
    the clock as read for the assignment, a later [update] that reads the
    clock no more than 100 ms past that stored reading (the difference
    taken on 32 bits) sends nothing and changes nothing: measured from the
    stored reading, two discovery broadcasts are never less than 101 ms
    apart. *)
Theorem broadcast_cadence (fuel fuel2 : nat) (millis millis2 : nat -> Z) (w : world) :
  isMaster (node w) = false ->
  length (peers (node w)) = 1 ->
  (100 < (millis 0%nat - broadcastMillis (node w)) mod 2 ^ 32)%Z ->
  ((millis2 0%nat - millis 1%nat) mod 2 ^ 32 <= 100)%Z ->
  exists w1,
    update fuel millis w = Done w1 /\
    emitted w w1 = [Broadcast BROADCAST_MAC_SLAVE 15] /\
    broadcastMillis (node w1) = millis 1%nat /\
    update fuel2 millis2 w1 = Done w1.
Proof.
  intros Hslave Hone Hdue Hsoon.
  exists (sendBroadcast (with_node (set_broadcastMillis (millis 1%nat)) w)).
  assert (Hs : sent (sendBroadcast (with_node (set_broadcastMillis (millis 1%nat)) w)) =
               sent w ++ [Broadcast BROADCAST_MAC_SLAVE 15]).
  { unfold sendBroadcast. simpl. rewrite Hslave. reflexivity. }
  split; [|split; [now apply emitted_app|split]].
  - unfold update, ulong_sub. rewrite Hslave, Hone. simpl. now rewrite bool_decide_eq_true_2.
  - now rewrite sendBroadcast_node.
  - unfold update, ulong_sub. rewrite sendBroadcast_node. simpl. rewrite Hslave, Hone. simpl.
    rewrite bool_decide_eq_false_2 by lia. reflexivity.
Qed.

Lemma broadcast_cadence_witness :
  isMaster (node slave_waiting) = false /\
  length (peers (node slave_waiting)) = 1 /\
  broadcastMillis (node slave_waiting) = 1000%Z /\
  (100 < (ticking 1101 0%nat - broadcastMillis (node slave_waiting)) mod 2 ^ 32)%Z /\
  ((ticking 1202 0%nat - ticking 1101 1%nat) mod 2 ^ 32 <= 100)%Z /\
  exists w1,
    update 0 (ticking 1101) slave_waiting = Done w1 /\
    broadcastMillis (node w1) = 1102%Z /\
    update 0 (ticking 1202) w1 = Done w1.
Proof.
  assert (Hdue : (100 < (ticking 1101 0%nat - broadcastMillis (node slave_waiting)) mod 2 ^ 32)%Z)
    by (vm_compute; reflexivity).
  assert (Hsoon : ((ticking 1202 0%nat - ticking 1101 1%nat) mod 2 ^ 32 <= 100)%Z)
    by (vm_compute; discriminate).
  split; [reflexivity|]. split; [reflexivity|]. split; [reflexivity|].
  split; [exact Hdue|]. split; [exact Hsoon|].
  destruct (broadcast_cadence 0 0 (ticking 1101) (ticking 1202) slave_waiting
              eq_refl eq_refl Hdue Hsoon) as (w1 & H1 & _ & Ht & H2).
  exists w1. split; [exact H1|]. split; [exact Ht | exact H2].
Defined.

(** ** Discovery and commands in [onReceive] *)

(** The object after [onReceive] on a slave outside receive handling: the
    directory of the discovery half, possibly a new command, nothing else. *)
Lemma onReceive_slave_node (recv_info : esp_now_recv_info_t) (data : list byte) (len : Z)
    (w : world) :
  isMaster (node w) = false ->
  masterHasCommand (node w) = false ->
  node (onReceive recv_info data len w) =
  set_masterCmdData
    (if bool_decide (len = Z.of_nat sizeof_master_cmd_t) then
       if bool_decide (memcmp (masterCmdData (node w)) data sizeof_master_cmd_t <> 0%Z)
       then memcpy (masterCmdData (node w)) data sizeof_master_cmd_t
       else masterCmdData (node w)
     else masterCmdData (node w))
    (set_peers (peers (node (discover_slave recv_info w))) (node w)).
Proof.
  intros Hslave Hfree. unfold onReceive. rewrite Hslave. fold (discover_slave recv_info w).
  pose proof (discover_slave_node recv_info w) as Hn.
  destruct (node (discover_slave recv_info w)) as [a1 a2 a3 a4 a5 a6 a7 a8 a9] eqn:E1.
  destruct (node w) as [b1 b2 b3 b4 b5 b6 b7 b8 b9] eqn:E0.
  simpl in Hn, Hfree, Hslave. injection Hn as -> -> -> -> -> -> -> ->. subst b8 b9.
  destruct (bool_decide (len = Z.of_nat sizeof_master_cmd_t)); simpl; rewrite ?E1; simpl;
    [|reflexivity].
  destruct (bool_decide (memcmp b3 data sizeof_master_cmd_t <> 0%Z)); simpl; rewrite ?E1;
    reflexivity.
Qed.

(** A slave that receives a datagram addressed to the master broadcast
    identity from a six-byte address it does not know appends the sender,
    provided the driver accepts it, and sends nothing. *)
Lemma onReceive_slave_adds (recv_info : esp_now_recv_info_t) (data : list byte) (len : Z)
    (w : world) :
  isMaster (node w) = false ->
  directory_ok w ->
  initialised (esp_now w) = true ->
  length (src_addr recv_info) = 6 ->
  des_addr recv_info = BROADCAST_MAC_MASTER ->
  src_addr recv_info ∉ peer_mac <$> peers (node w) ->
  length (peers (node w)) < ESP_NOW_MAX_TOTAL_PEER_NUM ->
  peers (node (discover_slave recv_info w)) =
    peers (node w) ++ [Peer (Z.of_nat (length (peers (node w)))) (src_addr recv_info)] /\
  sent (discover_slave recv_info w) = sent w.
Proof.
  intros Hslave Hdir Hinit Hsrc Hdes Hnew Hroom.
  pose proof (not_known_to_driver _ w Hdir Hnew) as Hunk.
  destruct Hdir as [Hmirror _ _].
  unfold discover_slave. rewrite Hdes, bool_decide_eq_true_2 by apply memcmp_refl.
  rewrite Hunk. simpl. split; [|apply addPeer_sent].
  rewrite addPeer_accepted; rewrite ?(mac_copy _ Hsrc); try assumption.
  - simpl. rewrite Z.mod_small; [reflexivity|].
    unfold ESP_NOW_MAX_TOTAL_PEER_NUM in Hroom. lia.
  - rewrite <- Hmirror, length_fmap. exact Hroom.
Qed.

(** X14: a slave's [onReceive] on a datagram addressed to
    [BROADCAST_MAC_MASTER] from an unknown six-byte address appends the
    sender to the directory and sends nothing in reply; when the directory
    held the broadcast identity only, the sender becomes the entry at
    index 1, with [peerID] 1. *)
Theorem onReceive_slave_pairs (recv_info : esp_now_recv_info_t) (data : list byte) (len : Z)
    (w : world) :
  isMaster (node w) = false ->
  directory_ok w ->
  initialised (esp_now w) = true ->
  length (src_addr recv_info) = 6 ->
  des_addr recv_info = BROADCAST_MAC_MASTER ->
  src_addr recv_info ∉ peer_mac <$> peers (node w) ->
  length (peers (node w)) < ESP_NOW_MAX_TOTAL_PEER_NUM ->
  let w' := onReceive recv_info data len w in
  peers (node w') =
    peers (node w) ++ [Peer (Z.of_nat (length (peers (node w)))) (src_addr recv_info)] /\
  sent w' = sent w /\
  (length (peers (node w)) = 1 -> peers (node w') !! 1 = Some (Peer 1 (src_addr recv_info))).
Proof.
  intros Hslave Hdir Hinit Hsrc Hdes Hnew Hroom w'. subst w'.
  destruct (onReceive_discover recv_info data len w) as (Hp & _ & Hs).
  rewrite Hslave in Hp, Hs.
  destruct (onReceive_slave_adds recv_info data len w Hslave Hdir Hinit Hsrc Hdes Hnew Hroom)
    as [Hadd Hsent].
  rewrite Hp, Hs, Hadd, Hsent. split; [reflexivity|]. split; [reflexivity|].
  intros Hone. destruct (peers (node w)) as [|p0 [|p1 ps]]; simpl in Hone; try lia.
  reflexivity.
Qed.

Lemma onReceive_slave_pairs_witness :
  let info := RecvInfo mac_master BROADCAST_MAC_MASTER in
  isMaster (node slave_searching) = false /\
  directory_ok slave_searching /\
  (mac_master ∉ peer_mac <$> peers (node slave_searching)) /\
  peers (node (onReceive info [] 0 slave_searching)) =
    [Peer 0 BROADCAST_MAC_SLAVE; Peer 1 mac_master] /\
  sent (onReceive info [] 0 slave_searching) = [].
Proof.
  intros info.
  assert (Hd : directory_ok slave_searching).
  { split; [reflexivity | repeat constructor | vm_compute; lia]. }
  assert (Hnew : mac_master ∉ peer_mac <$> peers (node slave_searching)).
  { intros Hin. apply list_elem_of_singleton in Hin. discriminate Hin. }
  assert (Hroom : length (peers (node slave_searching)) < ESP_NOW_MAX_TOTAL_PEER_NUM)
    by (vm_compute; lia).
  split; [reflexivity|]. split; [exact Hd|]. split; [exact Hnew|].
  destruct (onReceive_slave_pairs info [] 0 slave_searching eq_refl Hd eq_refl eq_refl eq_refl
              Hnew Hroom) as (Hp & Hs & _).
  split; [exact Hp | exact Hs].
Defined.

(** X15: pairing takes effect at once: when a searching slave has learned
    a master through [onReceive] and its outgoing snapshot differs from the
    last one sent, the next [update] unicasts the snapshot to that
    master. *)
Theorem paired_slave_sends_to_new_master (recv_info : esp_now_recv_info_t)
    (data : list byte) (fuel : nat) (millis : nat -> Z) (w : world) :
  isMaster (node w) = false ->
  masterHasCommand (node w) = false ->
  directory_ok w ->
  buffers_ok (node w) ->
  initialised (esp_now w) = true ->
  length (peers (node w)) = 1 ->
  length (src_addr recv_info) = 6 ->
  des_addr recv_info = BROADCAST_MAC_MASTER ->
  src_addr recv_info ∉ peer_mac <$> peers (node w) ->
  slaveSendData (node w) <> lastSlaveSendData (node w) ->
  let w1 := onReceive recv_info data (Z.of_nat (length data)) w in
  exists w2,
    update fuel millis w1 = Done w2 /\
    sent w2 = sent w ++ [Unicast (src_addr recv_info) (slaveSendData (node w))].
Proof.
  intros Hslave Hfree Hdir Hb Hinit Hone Hsrc Hdes Hnew Hne w1.
  assert (Hroom : length (peers (node w)) < ESP_NOW_MAX_TOTAL_PEER_NUM)
    by (rewrite Hone; unfold ESP_NOW_MAX_TOTAL_PEER_NUM; lia).
  destruct (onReceive_slave_adds recv_info data (Z.of_nat (length data)) w
              Hslave Hdir Hinit Hsrc Hdes Hnew Hroom) as [Hadd Hsent].
  destruct (onReceive_discover recv_info data (Z.of_nat (length data)) w) as (_ & _ & Hs).
  rewrite Hslave in Hs. fold w1 in Hs.
  pose proof (onReceive_slave_node recv_info data (Z.of_nat (length data)) w Hslave Hfree)
    as Hn. fold w1 in Hn.
  destruct (onReceive_ok recv_info data w Hsrc (conj Hdir Hb)) as [_ Hb1]. fold w1 in Hb1.
  assert (Hp1 : peers (node w1) !! 1 = Some (Peer 1 (src_addr recv_info))).
  { rewrite Hn. simpl. rewrite Hadd.
    destruct (peers (node w)) as [|p0 [|p1 ps]]; simpl in Hone; try lia. reflexivity. }
  assert (Hsl : isMaster (node w1) = false) by (rewrite Hn; exact Hslave).
  assert (Hfr : masterHasCommand (node w1) = false) by (rewrite Hn; exact Hfree).
  assert (Hsd : slaveSendData (node w1) = slaveSendData (node w)) by (now rewrite Hn).
  assert (Hld : lastSlaveSendData (node w1) = lastSlaveSendData (node w)) by (now rewrite Hn).
  rewrite (update_slave_paired_result fuel millis w1 _ Hsl Hp1 Hfr Hb1).
  destruct (decide (slaveSendData (node w1) = lastSlaveSendData (node w1))) as [Heq | _].
  - exfalso. apply Hne. now rewrite <- Hsd, <- Hld.
  - eexists. split; [reflexivity|]. simpl. now rewrite Hs, Hsent, Hsd.
Qed.

Lemma paired_slave_sends_to_new_master_witness :
  let w := with_node (set_slaveSendData one_button) slave_searching in
  let info := RecvInfo mac_master BROADCAST_MAC_MASTER in
  length (peers (node w)) = 1 /\
  slaveSendData (node w) <> lastSlaveSendData (node w) /\
  exists w2,
    update 0 (ticking 0) (onReceive info [] 0 w) = Done w2 /\
    sent w2 = [Unicast mac_master one_button].
Proof.
  intros w info.
  assert (Hd : directory_ok w).
  { split; [reflexivity | repeat constructor | vm_compute; lia]. }
  assert (Hb : buffers_ok (node w)) by (split; reflexivity).
  assert (Hnew : src_addr info ∉ peer_mac <$> peers (node w)).
  { intros Hin. apply list_elem_of_singleton in Hin. discriminate Hin. }
  assert (Hne : slaveSendData (node w) <> lastSlaveSendData (node w)) by discriminate.
  split; [reflexivity|]. split; [exact Hne|].
  exact (paired_slave_sends_to_new_master info [] 0 (ticking 0) w eq_refl eq_refl Hd Hb eq_refl eq_refl
           eq_refl eq_refl Hnew Hne).
Defined.

Lemma memcmp_mac (a b : list byte) :
  length a = 6 -> length b = 6 -> bool_decide (memcmp a b 6 = 0%Z) = bool_decide (a = b).
Proof.
  intros Ha Hb. destruct (decide (a = b)) as [-> | Hne].
  - rewrite !bool_decide_eq_true_2; [reflexivity | reflexivity | apply memcmp_refl].
  - rewrite !bool_decide_eq_false_2; [reflexivity | exact Hne |].
    intros H0. apply Hne. now apply (memcmp_zero_iff a b 6).
Qed.

(** X16: what [onReceive] sends: a master answers every datagram addressed
    to [BROADCAST_MAC_SLAVE] with one broadcast of its own, whether or not
    it knows the sender; nothing else is ever sent from [onReceive], and a
    slave sends nothing at all. *)
Theorem onReceive_replies (recv_info : esp_now_recv_info_t) (data : list byte) (len : Z)
    (w : world) :
  length (des_addr recv_info) = 6 ->
  sent (onReceive recv_info data len w) =
  sent w ++
    (if isMaster (node w) && bool_decide (des_addr recv_info = BROADCAST_MAC_SLAVE)
     then [Broadcast BROADCAST_MAC_MASTER 16] else []).
Proof.
  intros Hdes. destruct (onReceive_discover recv_info data len w) as (_ & _ & ->).
  destruct (isMaster (node w)) eqn:Hrole; simpl.
  - unfold discover_master.
    rewrite (memcmp_mac (des_addr recv_info) BROADCAST_MAC_SLAVE Hdes eq_refl).
    destruct (bool_decide (des_addr recv_info = BROADCAST_MAC_SLAVE));
      [|now rewrite app_nil_r].
    assert (Hs : sent (sendBroadcast w) = sent w ++ [Broadcast BROADCAST_MAC_MASTER 16]).
    { unfold sendBroadcast. rewrite Hrole. reflexivity. }
    destruct (negb _); [now rewrite addPeer_sent | exact Hs].
  - rewrite app_nil_r. unfold discover_slave.
    destruct (bool_decide (memcmp _ _ 6 = 0%Z)); [|reflexivity].
    destruct (negb _); [apply addPeer_sent | reflexivity].
Qed.

Lemma onReceive_replies_witness :
  length (des_addr (RecvInfo mac_A BROADCAST_MAC_SLAVE)) = 6 /\
  sent (onReceive (RecvInfo mac_A BROADCAST_MAC_SLAVE) [] 0 master_two_slaves) =
    [Broadcast BROADCAST_MAC_MASTER 16].
Proof.
  split; [reflexivity|].
  exact (onReceive_replies (RecvInfo mac_A BROADCAST_MAC_SLAVE) [] 0 master_two_slaves eq_refl).
Defined.

(** X17: discovery never looks at the payload: which peers the directory
    and the driver hold after [onReceive], and what was sent, depend on the
    two addresses of the datagram only, not on its bytes or its length. *)
Theorem onReceive_discovery_ignores_payload (recv_info : esp_now_recv_info_t)
    (data1 data2 : list byte) (len1 len2 : Z) (w : world) :
  peers (node (onReceive recv_info data1 len1 w)) =
    peers (node (onReceive recv_info data2 len2 w)) /\
  esp_now (onReceive recv_info data1 len1 w) = esp_now (onReceive recv_info data2 len2 w) /\
  sent (onReceive recv_info data1 len1 w) = sent (onReceive recv_info data2 len2 w).
Proof.
  destruct (onReceive_discover recv_info data1 len1 w) as (-> & -> & ->).
  destruct (onReceive_discover recv_info data2 len2 w) as (-> & -> & ->).
  repeat split.
Qed.

(** A slave outside receive handling that receives a command-sized
    datagram holds its payload as the live command afterwards. *)
Lemma onReceive_slave_command (recv_info : esp_now_recv_info_t) (data : list byte)
    (w : world) :
  isMaster (node w) = false ->
  masterHasCommand (node w) = false ->
  buffers_ok (node w) ->
  length data = sizeof_master_cmd_t ->
  node (onReceive recv_info data 12 w) =
  set_masterCmdData data (set_peers (peers (node (discover_slave recv_info w))) (node w)).
Proof.
  intros Hslave Hfree [_ _ Hc _ _] Hd.
  rewrite (onReceive_slave_node recv_info data 12 w Hslave Hfree).
  rewrite bool_decide_eq_true_2 by reflexivity.
  destruct (bool_decide (memcmp _ data sizeof_master_cmd_t <> 0%Z)) eqn:E.
  - now rewrite (memcpy_whole _ _ sizeof_master_cmd_t Hc Hd).
  - apply bool_decide_eq_false in E.
    assert (Heq : masterCmdData (node w) = data).
    { apply (memcmp_zero_iff _ _ sizeof_master_cmd_t Hc Hd).
      destruct (decide (memcmp (masterCmdData (node w)) data sizeof_master_cmd_t = 0%Z));
        [assumption | contradiction]. }
    now rewrite Heq.
Qed.

(** X18: commands are not queued.  When a slave receives two commands
    before the consumer at the end of [loop] runs, the live command is the
    second one; the consumer reports a new command exactly when the second
    differs from the one it saw last, and then remembers it: the first
    command is never reported. *)
Theorem commands_last_write_wins (info1 info2 : esp_now_recv_info_t)
    (cmd1 cmd2 : list byte) (w : world) :
  isMaster (node w) = false ->
  masterHasCommand (node w) = false ->
  buffers_ok (node w) ->
  length cmd1 = 12 ->
  length cmd2 = 12 ->
  let w2 := onReceive info2 cmd2 12 (onReceive info1 cmd1 12 w) in
  masterCmdData (node w2) = cmd2 /\
  lastmasterCmdData (node w2) = lastmasterCmdData (node w) /\
  (fst (process_master_data w2) = true <-> cmd2 <> lastmasterCmdData (node w)) /\
  lastmasterCmdData (node (snd (process_master_data w2))) = cmd2 /\
  masterCmdData (node (snd (process_master_data w2))) = cmd2.
Proof.
  intros Hslave Hfree Hb H1 H2 w2.
  pose proof (onReceive_slave_command info1 cmd1 w Hslave Hfree Hb H1) as Hn1.
  set (w1 := onReceive info1 cmd1 12 w) in *.
  assert (Hb1 : buffers_ok (node w1)).
  { rewrite Hn1. destruct Hb as [B1 B2 B3 B4 B5]. now split. }
  assert (Hs1 : isMaster (node w1) = false) by (now rewrite Hn1).
  assert (Hf1 : masterHasCommand (node w1) = false) by (now rewrite Hn1).
  pose proof (onReceive_slave_command info2 cmd2 w1 Hs1 Hf1 Hb1 H2) as Hn2.
  fold w2 in Hn2.
  assert (Hc2 : masterCmdData (node w2) = cmd2) by (now rewrite Hn2).
  assert (Hl2 : lastmasterCmdData (node w2) = lastmasterCmdData (node w))
    by (rewrite Hn2; simpl; now rewrite Hn1).
  assert (Hll : length (lastmasterCmdData (node w2)) = sizeof_master_cmd_t)
    by (rewrite Hl2; now destruct Hb).
  split; [exact Hc2|]. split; [exact Hl2|].
  unfold process_master_data.
  destruct (bool_decide (memcmp (masterCmdData (node w2)) (lastmasterCmdData (node w2))
                           sizeof_master_cmd_t <> 0%Z)) eqn:E; simpl.
  - apply bool_decide_eq_true in E. split; [|split].
    + split; [|reflexivity]. intros _ Heq. apply E. rewrite Hc2, Hl2, Heq. apply memcmp_refl.
    + rewrite Hc2. now apply memcpy_whole.
    + exact Hc2.
  - apply bool_decide_eq_false in E.
    assert (Heq : masterCmdData (node w2) = lastmasterCmdData (node w2)).
    { apply (memcmp_zero_iff _ _ sizeof_master_cmd_t); [now rewrite Hc2 | exact Hll |].
      destruct (decide (memcmp (masterCmdData (node w2)) (lastmasterCmdData (node w2))
                          sizeof_master_cmd_t = 0%Z)); [assumption | contradiction]. }
    split; [|split].
    + split; [discriminate|]. intros Hne. exfalso. apply Hne. now rewrite <- Hc2, Heq.
    + now rewrite <- Heq.
    + exact Hc2.
Qed.

Lemma commands_last_write_wins_witness :
  let info := RecvInfo mac_master mac_A in
  let w2 := onReceive info (replicate 12 x00) 12 (onReceive info some_command 12 slave_paired) in
  isMaster (node slave_paired) = false /\
  buffers_ok (node slave_paired) /\
  masterCmdData (node w2) = replicate 12 x00 /\
  fst (process_master_data w2) = false.
Proof.
  intros info w2.
  assert (Hb : buffers_ok (node slave_paired)) by (split; reflexivity).
  split; [reflexivity|]. split; [exact Hb|].
  destruct (commands_last_write_wins info info some_command (replicate 12 x00) slave_paired
              eq_refl eq_refl Hb eq_refl eq_refl) as (Hc & _ & Hseen & _).
  split; [exact Hc|].
  destruct (fst (process_master_data w2)) eqn:E; [|reflexivity].
  exfalso. apply (proj1 Hseen); [exact E | reflexivity].
Defined.

(** ** Packing the inputs into [button_data] *)

Lemma byte_val_range (b : byte) : (0 <= byte_val b < 256)%Z.
Proof.
  unfold byte_val. pose proof (Byte.to_N_bounded b) as H. lia.
Qed.

Lemma byte_val_byte_of_Z (z : Z) : byte_val (byte_of_Z z) = (z mod 256)%Z.
Proof.
  unfold byte_of_Z, byte_val.
  assert (Hr : (0 <= z mod 256 < 256)%Z) by (apply Z.mod_pos_bound; lia).
  destruct (Byte.of_N (Z.to_N (z mod 256))) as [b|] eqn:E; simpl.
  - apply Byte.to_of_N in E. rewrite E. lia.
  - apply Byte.of_N_None_iff in E. lia.
Qed.

Lemma testbit_one_shifted (j k : Z) :
  (0 <= j)%Z -> (0 <= k)%Z -> Z.testbit (Z.shiftl 1 k) j = bool_decide (j = k).
Proof.
  intros Hj Hk. rewrite Z.shiftl_spec by exact Hj.
  destruct (decide (j = k)) as [-> | Hne].
  - rewrite Z.sub_diag, bool_decide_eq_true_2 by reflexivity. reflexivity.
  - rewrite bool_decide_eq_false_2 by exact Hne.
    destruct (j - k)%Z as [|q|q] eqn:E; [lia | now destruct q | reflexivity].
Qed.

(** Reading back a byte written by [bitWrite]: the written bit has the new
    value, the other seven are as before. *)
Lemma bitWrite_testbit (value : byte) (bit j : Z) (bitvalue : bool) :
  (0 <= bit < 8)%Z -> (0 <= j < 8)%Z ->
  Z.testbit (byte_val (bitWrite value bit bitvalue)) j =
  if bool_decide (j = bit) then bitvalue else Z.testbit (byte_val value) j.
Proof.
  intros Hbit Hj. unfold bitWrite. rewrite byte_val_byte_of_Z.
  change 256%Z with (2 ^ 8)%Z. rewrite Z.mod_pow2_bits_low by lia.
  destruct bitvalue.
  - rewrite Z.lor_spec, testbit_one_shifted by lia.
    destruct (bool_decide (j = bit)); [apply orb_true_r | apply orb_false_r].
  - rewrite Z.land_spec, Z.lnot_spec, testbit_one_shifted by lia.
    destruct (bool_decide (j = bit)); [apply andb_false_r | apply andb_true_r].
Qed.

Lemma packed_empty (block : list byte) :
  length block = 16 -> packed [] (Scan (memset block x00 16) 0).
Proof.
  intros Hl. rewrite (memset_whole block x00 16 Hl). split.
  - reflexivity.
  - simpl. lia.
  - apply length_replicate.
  - intros i Hi. unfold input_bit. cbn [button_data].
    destruct (replicate 16 x00 !! (i / 8)) as [b|] eqn:E; [|reflexivity].
    apply lookup_replicate in E as [-> _]. apply Z.testbit_0_l.
Qed.

(** Storing one more input into an array that is not full appends it. *)
Lemma store_bit_packed (state : bool) (rs : list bool) (s : scan_t) :
  packed rs s -> length rs < 128 ->
  exists s', store_bit state s = Some s' /\ packed (rs ++ [state]) s'.
Proof.
  intros [Hc Hr Hs Hb] Hlt. unfold store_bit. rewrite Hc.
  set (n := length rs) in *.
  assert (Ebyte : Z.to_nat ((Z.of_nat n / 8) mod 256)%Z = n / 8) by div_lia.
  assert (Ebit : ((Z.of_nat n mod 8) mod 256)%Z = Z.of_nat (n mod 8)) by div_lia.
  rewrite Ebyte, Ebit.
  destruct (lookup_lt_is_Some_2 (button_data s) (n / 8)) as [b Eb]; [rewrite Hs; div_lia|].
  rewrite Eb. eexists. split; [reflexivity|].
  assert (Hn1 : length (rs ++ [state]) = S n) by (rewrite length_app; simpl; lia).
  split; cbn [button_data totalBits].
  - rewrite Hn1, Z.mod_small; lia.
  - rewrite Hn1. lia.
  - now rewrite length_insert.
  - intros i Hi. unfold input_bit. destruct (decide (i / 8 = n / 8)) as [Hsame | Hother].
    + rewrite Hsame, list_lookup_insert_eq by (rewrite Hs; div_lia).
      rewrite bitWrite_testbit by div_lia.
      destruct (decide (i = n)) as [-> | Hne].
      * rewrite bool_decide_eq_true_2 by reflexivity.
        now rewrite lookup_app_r, Nat.sub_diag by lia.
      * rewrite bool_decide_eq_false_2 by div_lia.
        specialize (Hb i Hi). unfold input_bit in Hb. rewrite Hsame, Eb in Hb. rewrite Hb.
        destruct (decide (i < n)) as [Hl | Hg].
        -- now rewrite lookup_app_l by exact Hl.
        -- rewrite !lookup_ge_None_2; [reflexivity | rewrite Hn1; lia | fold n; lia].
    + rewrite list_lookup_insert_ne by (intros Heq; now apply Hother).
      specialize (Hb i Hi). unfold input_bit in Hb. rewrite Hb.
      assert (Hne : i <> n) by (intros ->; now apply Hother).
      destruct (decide (i < n)) as [Hl | Hg].
      * now rewrite lookup_app_l by exact Hl.
      * rewrite !lookup_ge_None_2; [reflexivity | rewrite Hn1; lia | fold n; lia].
Qed.

(** Storing into a full array indexes [button_data] past its end. *)
Lemma store_bit_full (state : bool) (rs : list bool) (s : scan_t) :
  packed rs s -> length rs = 128 -> store_bit state s = None.
Proof.
  intros [Hc _ Hs _] Hfull. unfold store_bit. rewrite Hc, Hfull.
  change (Z.to_nat ((Z.of_nat 128 / 8) mod 256)%Z) with 16.
  now rewrite lookup_ge_None_2 by lia.
Qed.

Lemma take_full_app (rs more : list bool) :
  128 <= length rs -> take 128 (rs ++ more) = take 128 rs.
Proof. intros H. now apply take_app_le. Qed.

Lemma writeBits_packed {H : Type} (B : board H) (pins : list nat) (invert : bool) (hw : H) :
  forall (rs : list bool) (s : scan_t),
  packed rs s ->
  exists s', writeBits B pins invert hw s = Some s' /\
             packed (take 128 (rs ++ pin_readings B pins invert hw)) s'.
Proof.
  induction pins as [|pin pins IH]; intros rs s Hp; simpl.
  - exists s. split; [reflexivity|]. rewrite app_nil_r, take_ge; [exact Hp | apply Hp].
  - destruct (bool_decide (16 * 8 <= totalBits s)%Z) eqn:E.
    + apply bool_decide_eq_true in E. exists s. split; [reflexivity|].
      destruct Hp as [Hc Hr Hs Hb].
      rewrite take_full_app, take_ge by lia. now split.
    + apply bool_decide_eq_false in E.
      assert (Hlt : length rs < 128) by (destruct Hp as [Hc _ _ _]; lia).
      destruct (store_bit_packed
                  (if invert then negb (digitalRead B pin hw) else digitalRead B pin hw)
                  rs s Hp Hlt) as (s1 & -> & Hp1).
      destruct (IH _ s1 Hp1) as (s' & Hw & Hp').
      exists s'. split; [exact Hw|]. now rewrite <- app_assoc in Hp'.
Qed.

Lemma read_touch_packed {H : Type} (B : board H) (pins : list nat) (hw : H) :
  forall (rs : list bool) (s : scan_t),
  packed rs s ->
  length rs + length pins <= 128 ->
  exists s', read_touch B pins hw s = Some s' /\ packed (rs ++ touch_readings B pins hw) s'.
Proof.
  induction pins as [|pin pins IH]; intros rs s Hp Hfit; simpl.
  - exists s. split; [reflexivity|]. now rewrite app_nil_r.
  - simpl in Hfit.
    destruct (store_bit_packed (bool_decide (touchThreshold < touchRead B pin hw)%Z)
                rs s Hp) as (s1 & -> & Hp1); [lia|].
    destruct (IH _ s1 Hp1) as (s' & Hw & Hp'); [rewrite length_app; simpl; lia|].
    exists s'. split; [exact Hw|]. now rewrite <- app_assoc in Hp'.
Qed.

Lemma read_touch_overflow {H : Type} (B : board H) (pins : list nat) (hw : H) :
  forall (rs : list bool) (s : scan_t),
  packed rs s ->
  128 < length rs + length pins ->
  read_touch B pins hw s = None.
Proof.
  induction pins as [|pin pins IH]; intros rs s Hp Hover; simpl in *.
  - destruct Hp as [_ Hr _ _]. lia.
  - destruct (decide (length rs = 128)) as [Hfull | Hnot].
    + now rewrite (store_bit_full _ rs s Hp Hfull).
    + assert (Hlt : length rs < 128) by (destruct Hp as [_ Hr _ _]; lia).
      destruct (store_bit_packed (bool_decide (touchThreshold < touchRead B pin hw)%Z)
                  rs s Hp Hlt) as (s1 & -> & Hp1).
      apply (IH _ s1 Hp1). rewrite length_app. simpl. lia.
Qed.

Lemma scan_matrix_packed {H : Type} (B : board H) (rows cols : list nat) :
  forall (hw : H) (rs : list bool) (s : scan_t),
  packed rs s ->
  exists hw' s', scan_matrix B rows cols hw s = Some (hw', s') /\
                 packed (take 128 (rs ++ matrix_readings B rows cols hw)) s'.
Proof.
  induction rows as [|row rows IH]; intros hw rs s Hp; simpl.
  - exists hw, s. split; [reflexivity|]. rewrite app_nil_r, take_ge; [exact Hp | apply Hp].
  - set (hw1 := digitalWrite B row false hw).
    destruct (writeBits_packed B cols true hw1 rs s Hp) as (s1 & -> & Hp1).
    set (cr := pin_readings B cols true hw1) in *.
    destruct (bool_decide (16 * 8 <= totalBits s1)%Z) eqn:E.
    + apply bool_decide_eq_true in E. eexists _, s1. split; [reflexivity|].
      assert (Hlen : 128 <= length (rs ++ cr)).
      { destruct Hp1 as [Hc _ _ _]. rewrite length_take in Hc. lia. }
      now rewrite app_assoc, take_full_app by exact Hlen.
    + apply bool_decide_eq_false in E.
      assert (Hlen : length (rs ++ cr) < 128).
      { destruct Hp1 as [Hc _ _ _]. rewrite length_take in Hc. lia. }
      rewrite take_ge in Hp1 by lia.
      destruct (IH (digitalWrite B row true hw1) _ s1 Hp1) as (hw' & s' & Hm & Hp').
      exists hw', s'. split; [exact Hm|]. now rewrite <- app_assoc in Hp'.
Qed.

Lemma take_take_app (n : nat) (l k : list bool) :
  take n (take n l ++ k) = take n (l ++ k).
Proof.
  destruct (decide (n <= length l)) as [Hle | Hgt].
  - rewrite (take_app_le l k n Hle).
    rewrite take_app_le by (rewrite length_take; lia).
    apply take_idemp.
  - now rewrite (take_ge l n) by lia.
Qed.

Lemma input_bit_block (block rest : list byte) (i : nat) :
  length block = 16 -> i < 128 -> input_bit (block ++ rest) i = input_bit block i.
Proof.
  intros Hl Hi. unfold input_bit. rewrite lookup_app_l; [reflexivity|]. rewrite Hl. div_lia.
Qed.

(** X19: with at most 128 touch pins, the scan of [loop] succeeds and
    leaves in the snapshot's [button_data] block the logical inputs in scan
    order (touch pins, GND buttons inverted, VCC buttons, matrix columns
    inverted row by row), one per bit from bit 0 of byte 0 on; inputs beyond
    the 128th are dropped, bits behind the last input are zero, and the
    [data] block behind the array is unchanged. *)
Theorem prepare_button_data_packs {H : Type} (B : board H) (cfg : pins_t) (hw : H)
    (snapshot : list byte) :
  length (buttonsTouchpins cfg) <= 128 ->
  16 <= length snapshot ->
  exists (hw' : H) (out : list byte),
    prepare_button_data B cfg hw snapshot = Some (hw', out) /\
    length out = length snapshot /\
    drop 16 out = drop 16 snapshot /\
    forall i, i < 128 -> input_bit out i = default false (all_readings B cfg hw !! i).
Proof.
  intros Htouch Hlen. unfold prepare_button_data, all_readings.
  assert (Hblock : length (take 16 snapshot) = 16) by (rewrite length_take; lia).
  pose proof (packed_empty (take 16 snapshot) Hblock) as Hp0.
  destruct (read_touch_packed B (buttonsTouchpins cfg) hw [] _ Hp0) as (s1 & -> & Hp1);
    [simpl; lia|]. simpl in Hp1.
  set (tr := touch_readings B (buttonsTouchpins cfg) hw) in *.
  assert (Htr : length tr <= 128) by apply Hp1.
  destruct (writeBits_packed B (buttonsGndpins cfg) true hw tr s1 Hp1) as (s2 & -> & Hp2).
  set (gr := pin_readings B (buttonsGndpins cfg) true hw) in *.
  destruct (writeBits_packed B (buttonsVCCpins cfg) false hw _ s2 Hp2) as (s3 & -> & Hp3).
  set (vr := pin_readings B (buttonsVCCpins cfg) false hw) in *.
  destruct (scan_matrix_packed B (buttonsRowpins cfg) (buttonsColpins cfg) hw _ s3 Hp3)
    as (hw' & s4 & -> & Hp4).
  set (mr := matrix_readings B (buttonsRowpins cfg) (buttonsColpins cfg) hw) in *.
  destruct Hp4 as [_ _ Hs4 Hb4].
  exists hw', (button_data s4 ++ drop 16 snapshot). split; [reflexivity|]. split; [|split].
  - rewrite length_app, length_drop, Hs4. lia.
  - rewrite drop_app_length'; [reflexivity | now symmetry].
  - intros i Hi. rewrite (input_bit_block _ _ i Hs4 Hi), (Hb4 i Hi).
    rewrite (take_take_app 128 (take 128 (tr ++ gr) ++ vr) mr).
    rewrite <- (app_assoc (take 128 (tr ++ gr)) vr mr).
    rewrite (take_take_app 128 (tr ++ gr) (vr ++ mr)).
    rewrite <- (app_assoc tr gr (vr ++ mr)).
    now rewrite lookup_take_lt by exact Hi.
Qed.

Lemma prepare_button_data_packs_witness :
  length (buttonsTouchpins default_pins) <= 128 /\
  16 <= length busy_snapshot /\
  all_readings bench default_pins None =
    [false; true; false; false;  true; false; false; false;
     true; false; false; false;  false; false; false; false;
     false; true; false; false;  false; false; false; false;
     false; false; false; false] /\
  prepare_button_data bench default_pins None busy_snapshot =
    Some (None, [x12; x01; x02] ++ replicate 13 x00 ++ replicate 64 xab) /\
  input_bit ([x12; x01; x02] ++ replicate 13 x00 ++ replicate 64 xab) 17 = true.
Proof.
  assert (Ht : length (buttonsTouchpins default_pins) <= 128) by (simpl; lia).
  assert (Hl : 16 <= length busy_snapshot) by (vm_compute; lia).
  split; [exact Ht|]. split; [exact Hl|]. split; [reflexivity|].
  destruct (prepare_button_data_packs bench default_pins None busy_snapshot Ht Hl)
    as (hw' & out & Hrun & _ & _ & Hbits).
  assert (Hout : Some (hw', out) =
                 Some (None, [x12; x01; x02] ++ replicate 13 x00 ++ replicate 64 xab)).
  { rewrite <- Hrun. vm_compute. reflexivity. }
  split; [now rewrite Hrun|].
  injection Hout as _ ->.
  transitivity (default false (all_readings bench default_pins None !! 17));
    [|reflexivity].
  apply (Hbits 17). lia.
Defined.

(** X20: the loop over the touch pins has no bound check: with more than
    128 touch pins the scan writes [button_data[16]], past the end of the
    array. *)
Theorem prepare_button_data_touch_overflow {H : Type} (B : board H) (cfg : pins_t) (hw : H)
    (snapshot : list byte) :
  128 < length (buttonsTouchpins cfg) ->
  16 <= length snapshot ->
  prepare_button_data B cfg hw snapshot = None.
Proof.
  intros Hover Hlen. unfold prepare_button_data.
  assert (Hblock : length (take 16 snapshot) = 16) by (rewrite length_take; lia).
  rewrite (read_touch_overflow B (buttonsTouchpins cfg) hw [] _
             (packed_empty (take 16 snapshot) Hblock)); [reflexivity | simpl; lia].
Qed.

Lemma prepare_button_data_touch_overflow_witness :
  128 < length (buttonsTouchpins too_many_touch_pins) /\
  16 <= length busy_snapshot /\
  prepare_button_data bench too_many_touch_pins None busy_snapshot = None.
Proof.
  assert (Ht : 128 < length (buttonsTouchpins too_many_touch_pins)).
  { change (128 < length (replicate 129 1)). rewrite length_replicate. lia. }
  assert (Hl : 16 <= length busy_snapshot) by (vm_compute; lia).
  split; [exact Ht|]. split; [exact Hl|].
  exact (prepare_button_data_touch_overflow bench too_many_touch_pins None busy_snapshot Ht Hl).
Defined.

(** X21: [checkButtonActivity] always leaves [lastButtonState] equal to
    the current [button_data] block.  When the block changed since the last
    call it stamps the activity with the clock reading and clears
    [lowPowerMode], so that the head of [loop] does not enter low-power mode
    during the next [INACTIVITY_TIMEOUT] milliseconds; when the block did
    not change it changes nothing. *)
Theorem checkButtonActivity_tracks (millis : Z) (w : world) (a : app_t) :
  buffers_ok (node w) ->
  length (lastButtonState a) = 16 ->
  let current := take 16 (slaveSendData (node w)) in
  let a' := checkButtonActivity millis w a in
  lastButtonState a' = current /\
  (lastButtonState a <> current ->
     lastActivityMillis a' = millis /\
     lowPowerMode a' = false /\
     forall millis2, (ulong_sub millis2 millis <= INACTIVITY_TIMEOUT)%Z ->
                     enters_low_power millis2 a' = false) /\
  (lastButtonState a = current -> a' = a).
Proof.
  intros [Hs _ _ _ _] Hlast current a'.
  assert (Hcur : length current = 16).
  { subst current. rewrite length_take, Hs, sizeof_slave_data_t_eq. lia. }
  subst a'. unfold checkButtonActivity. fold current.
  destruct (decide (lastButtonState a = current)) as [Heq | Hne].
  - rewrite bool_decide_eq_false_2.
    + split; [exact Heq|]. split; [intros Hn; contradiction | reflexivity].
    + intros Hm. apply Hm. rewrite Heq. apply memcmp_refl.
  - rewrite bool_decide_eq_true_2.
    + simpl. split; [now apply memcpy_whole|]. split; [|intros Heq; contradiction].
      intros _. split; [reflexivity|]. split; [reflexivity|].
      intros millis2 Hsoon. unfold enters_low_power. simpl.
      apply bool_decide_eq_false. lia.
    + intros Hm. apply Hne. now apply (memcmp_zero_iff _ _ 16 Hlast Hcur).
Qed.

Lemma checkButtonActivity_tracks_witness :
  let w := with_node (set_slaveSendData one_button) slave_paired in
  let a' := checkButtonActivity 7000 w app_start in
  buffers_ok (node w) /\
  length (lastButtonState app_start) = 16 /\
  lastButtonState app_start <> take 16 (slaveSendData (node w)) /\
  lastButtonState a' = take 16 one_button /\
  lastActivityMillis a' = 7000%Z /\
  enters_low_power 37000 a' = false.
Proof.
  intros w a'.
  assert (Hb : buffers_ok (node w)) by (split; reflexivity).
  assert (Hne : lastButtonState app_start <> take 16 (slaveSendData (node w)))
    by discriminate.
  split; [exact Hb|]. split; [reflexivity|]. split; [exact Hne|].
  destruct (checkButtonActivity_tracks 7000 w app_start Hb eq_refl) as (Hl & Hch & _).
  destruct (Hch Hne) as (Ht & _ & Hsleep).
  split; [exact Hl|]. split; [exact Ht|]. apply Hsleep. vm_compute. discriminate.
Defined.

(** X22: a master's [onReceive] on a datagram addressed to
    [BROADCAST_MAC_SLAVE] from an unknown six-byte address appends the
    sender to the directory, with the former size as its [peerID], and
    answers with one broadcast. *)
Theorem onReceive_master_learns (recv_info : esp_now_recv_info_t) (data : list byte)
    (len : Z) (w : world) :
  isMaster (node w) = true ->
  directory_ok w ->
  initialised (esp_now w) = true ->
  length (src_addr recv_info) = 6 ->
  des_addr recv_info = BROADCAST_MAC_SLAVE ->
  src_addr recv_info ∉ peer_mac <$> peers (node w) ->
  length (peers (node w)) < ESP_NOW_MAX_TOTAL_PEER_NUM ->
  let w' := onReceive recv_info data len w in
  peers (node w') =
    peers (node w) ++ [Peer (Z.of_nat (length (peers (node w)))) (src_addr recv_info)] /\
  sent w' = sent w ++ [Broadcast BROADCAST_MAC_MASTER 16].
Proof.
  intros Hmaster Hdir Hinit Hsrc Hdes Hnew Hroom w'. subst w'.
  destruct (onReceive_discover recv_info data len w) as (-> & _ & ->).
  rewrite Hmaster. unfold discover_master.
  rewrite Hdes, bool_decide_eq_true_2 by apply memcmp_refl.
  assert (Hwb : sendBroadcast w =
                World (node w) (esp_now w) (sent w ++ [Broadcast BROADCAST_MAC_MASTER 16])).
  { unfold sendBroadcast. rewrite Hmaster. reflexivity. }
  rewrite Hwb. set (wb := World _ _ _).
  assert (Hunk : esp_now_is_peer_exist (src_addr recv_info) (esp_now wb) = false)
    by (now apply (not_known_to_driver _ w)).
  rewrite Hunk. simpl. split; [|now rewrite addPeer_sent].
  destruct Hdir as [Hmirror _ _].
  rewrite addPeer_accepted; rewrite ?(mac_copy _ Hsrc); try assumption.
  - simpl. rewrite Z.mod_small; [reflexivity|].
    unfold ESP_NOW_MAX_TOTAL_PEER_NUM in Hroom. lia.
  - simpl. rewrite <- Hmirror, length_fmap. exact Hroom.
Qed.

Lemma onReceive_master_learns_witness :
  let info := RecvInfo mac_C BROADCAST_MAC_SLAVE in
  isMaster (node master_two_slaves) = true /\
  directory_ok master_two_slaves /\
  (mac_C ∉ peer_mac <$> peers (node master_two_slaves)) /\
  peers (node (onReceive info [] 0 master_two_slaves)) =
    [Peer 0 BROADCAST_MAC_MASTER; Peer 1 mac_A; Peer 2 mac_B; Peer 3 mac_C] /\
  sent (onReceive info [] 0 master_two_slaves) = [Broadcast BROADCAST_MAC_MASTER 16].
Proof.
  intros info.
  assert (Hd : directory_ok master_two_slaves).
  { split; [reflexivity | repeat constructor | vm_compute; lia]. }
  assert (Hnew : mac_C ∉ peer_mac <$> peers (node master_two_slaves)).
  { apply (bool_decide_unpack _). vm_compute. exact I. }
  assert (Hroom : length (peers (node master_two_slaves)) < ESP_NOW_MAX_TOTAL_PEER_NUM)
    by (vm_compute; lia).
  split; [reflexivity|]. split; [exact Hd|]. split; [exact Hnew|].
  exact (onReceive_master_learns info [] 0 master_two_slaves eq_refl Hd eq_refl eq_refl
           eq_refl Hnew Hroom).
Defined.
